(** * Retrieval layer and checklist engine of the document-review agent

    A shallow embedding of
      - [agent/rag/ingest.py]        (text extraction, chunking, filtering,
                                      re-ranking),
      - [agent/process/checklists.py] (required-document checklists),
      - [agent/process/inference.py]  (process inference),
      - [agent/knowledge/manifest.py] (the source manifest),
    together with the properties the specification states about them.

    Python integers are unbounded, so they are [Z].  A Python [str] is a
    sequence of code points; the chunker never looks at the characters, so
    it is written over [list char] for an arbitrary [char].  Dictionaries
    are [gmap]s, sets are [gset]s.  A [while] loop that need not terminate
    is run with fuel: [None] means that the fuel was used up, and a loop
    that diverges yields [None] for every amount of fuel. *)

From Stdlib Require Import ZArith Ascii String List.
From stdpp Require Import base tactics option list sorting gmap strings.

Local Open Scope Z_scope.

(** ** Python builtins used by the code *)

Module Py.

Section Sequences.
Context {A : Type}.

(** [len(s)] *)
Definition len (l : list A) : Z := Z.of_nat (length l).

(** A slice bound as Python normalises it: a negative bound counts from
    the end, and the result is clamped to [0 .. len]. *)
Definition clamp_index (n i : Z) : Z :=
  if i <? 0 then Z.max 0 (i + n) else Z.min i n.

(** [s[a:b]] *)
Definition slice (l : list A) (a b : Z) : list A :=
  let lo := clamp_index (len l) a in
  let hi := clamp_index (len l) b in
  take (Z.to_nat (hi - lo)) (drop (Z.to_nat lo) l).

(** [s[:b]] *)
Definition slice_to (l : list A) (b : Z) : list A := slice l 0 b.

(** Truth value of a sequence: [if s:] *)
Definition truthy (l : list A) : bool :=
  match l with [] => false | _ :: _ => true end.
End Sequences.

(** A raised exception: its class and what it carries. *)
Record exn : Type := Exn { exn_class : string; exn_detail : string }.

(** What a call does: it returns a value or raises. *)
Inductive outcome (E A : Type) : Type :=
  | Returned (a : A)
  | Raised (e : E).
Arguments Returned {E A} a.
Arguments Raised {E A} e.

Definition bind {E A B} (c : outcome E A) (k : A → outcome E B)
    : outcome E B :=
  match c with
  | Returned a => k a
  | Raised e => Raised e
  end.

(** [needle in haystack] for strings. *)
Fixpoint contains (haystack needle : string) : bool :=
  String.prefix needle haystack
  || match haystack with
     | EmptyString => false
     | String _ rest => contains rest needle
     end.

(** [str.lower] depends on the Unicode tables and is a parameter of the
    code that calls it; this is its action on ASCII text, for running the
    code on examples. *)
Definition ascii_lower_char (c : ascii) : ascii :=
  let n := nat_of_ascii c in
  if ((65 <=? n) && (n <=? 90))%nat then ascii_of_nat (n + 32) else c.

Fixpoint ascii_lower (s : string) : string :=
  match s with
  | EmptyString => EmptyString
  | String c rest => String (ascii_lower_char c) (ascii_lower rest)
  end.

(** Truth value of an optional list argument: [None] and [[]] are false. *)
Definition given {A} (arg : option (list A)) : option (list A) :=
  match arg with
  | Some (_ :: _) => arg
  | _ => None
  end.

(** [sorted(l, key=key)] and [sorted(l, key=key, reverse=True)].  The sort
    compares keys with [<] only and is stable; with [reverse=True] the list
    is reversed, sorted, and reversed again, which keeps elements with
    equal keys in their original order. *)
Section Sorted.
Context {A K : Type} (lt : K → K → bool) (key : A → K).

Fixpoint insert_sorted (x : A) (l : list A) : list A :=
  match l with
  | [] => [x]
  | y :: l' =>
      if lt (key y) (key x) then y :: insert_sorted x l' else x :: y :: l'
  end.

Definition sort_stable (l : list A) : list A := foldr insert_sorted [] l.

Definition sorted (reverse_ : bool) (l : list A) : list A :=
  if reverse_ then reverse (sort_stable (reverse l)) else sort_stable l.
End Sorted.

End Py.

(** ** The chunker: [chunk_text] *)

Module Chunker.
Import Py.

Section Chunking.
Context {char : Type}.
Local Abbreviation str := (list char).

(** One pass through the body of the [while] loop, entered with
    [start < len(text)]. *)
Inductive loop_exit : Type :=
  | Break (chunks : list str)
  | Continue (start : Z) (chunks : list str).

Definition loop_body (text : str) (size overlap : Z)
    (start : Z) (chunks : list str) : loop_exit :=
  let end_ := Z.min (len text) (start + size) in
  let chunk := slice text start end_ in
  let chunks := if truthy chunk then chunks ++ [chunk] else chunks in
  if end_ =? len text then Break chunks
  else Continue (Z.max 0 (end_ - overlap)) chunks.

(** [while start < len(text): ...], at most [fuel] tests of the guard. *)
Fixpoint chunk_loop (fuel : nat) (text : str) (size overlap : Z)
    (start : Z) (chunks : list str) : option (list str) :=
  match fuel with
  | O => None
  | S fuel' =>
      if start <? len text then
        match loop_body text size overlap start chunks with
        | Break chunks' => Some chunks'
        | Continue start' chunks' =>
            chunk_loop fuel' text size overlap start' chunks'
        end
      else Some chunks
  end.

Definition chunk_text (fuel : nat) (text : str) (size overlap : Z)
    : option (list str) :=
  chunk_loop fuel text size overlap 0 [].

(** The call [chunk_text(text, size, overlap)] returns [chunks]. *)
Definition chunk_text_returns (text : str) (size overlap : Z)
    (chunks : list str) : Prop :=
  ∃ fuel, chunk_text fuel text size overlap = Some chunks.

(** Putting the chunks back together: the first chunk as it is, every
    later chunk without its first [overlap] characters. *)
Definition reassemble (overlap : Z) (chunks : list str) : str :=
  match chunks with
  | [] => []
  | c :: cs => c ++ concat (map (drop (Z.to_nat overlap)) cs)
  end.
End Chunking.

(** [ceil(a / b)] for a positive divisor. *)
Definition ceil_div (a b : Z) : Z := - ((- a) / b).

End Chunker.

(** ** The checklist engine: [checklists.py] and [inference.py] *)

Module Checklists.

Local Open Scope string_scope.

Definition REQUIRED_DOCS_BY_PROCESS : gmap string (list string) :=
  list_to_map [
    ("Company Incorporation (Private Company)",
       [ "Articles of Association";
         "Board Resolution";
         "Incorporation Application Form";
         "UBO Declaration Form";
         "Register of Members and Directors" ]);
    ("Employment Compliance", [ "Employment Contract" ]);
    ("Data Protection Compliance", [ "Appropriate Policy Document" ]);
    ("AoA Amendment",
       [ "Articles of Association"; "Shareholder Resolution" ])
  ].

(** Composite requirement satisfied if BOTH of these are present *)
Definition SYNONYMS : gmap string (gset string) :=
  {[ "Register of Members and Directors" :=
       {[ "Register of Members"; "Register of Directors" ]} ]}.

(** The two lists the loops append to. *)
Record tally : Type := Tally { present : list string; missing : list string }.

Definition append_present (t : tally) (req : string) : tally :=
  Tally (present t ++ [req]) (missing t).

Definition append_missing (t : tally) (req : string) : tally :=
  Tally (present t) (missing t ++ [req]).

(** The body of [for req in required] in [compute_missing_docs]; each
    [continue] of the source ends a branch here. *)
Definition classify (uploaded_set : gset string) (t : tally) (req : string)
    : tally :=
  match SYNONYMS !! req with
  | Some parts =>
      if bool_decide (parts ⊆ uploaded_set) then append_present t req
      else append_missing t req
  | None =>
      if bool_decide (req ∈ uploaded_set) then append_present t req
      else if bool_decide (req = "Board Resolution")
              && bool_decide ("Shareholder Resolution" ∈ uploaded_set)
      then append_missing t req
      else append_missing t req
  end.

Definition compute_missing_docs (process : string)
    (uploaded_doc_types : list string) : list string * list string :=
  let required := default [] (REQUIRED_DOCS_BY_PROCESS !! process) in
  let uploaded_set : gset string := list_to_set uploaded_doc_types in
  let t := fold_left (classify uploaded_set) required (Tally [] []) in
  (present t, missing t).

(** The basic comparison, without composite requirements. *)
Definition compare_uploaded_to_required (process : string)
    (uploaded_doc_types : list string) : list string * list string :=
  let required := default [] (REQUIRED_DOCS_BY_PROCESS !! process) in
  let t :=
    fold_left
      (λ t req,
         if bool_decide (req ∈ uploaded_doc_types) then append_present t req
         else append_missing t req)
      required (Tally [] []) in
  (present t, missing t).

(** What the specification says of one requirement: a composite one is
    met when all its constituents were uploaded, any other one when the
    label itself was uploaded. *)
Definition requirement_met (uploaded : list string) (req : string) : Prop :=
  match SYNONYMS !! req with
  | Some parts => ∀ part, part ∈ parts → part ∈ uploaded
  | None => req ∈ uploaded
  end.

End Checklists.

Module Inference.

Local Open Scope string_scope.
Local Open Scope Z_scope.

(** [Counter(doc_types)[label]]: how often the label occurs, [0] for a
    label that does not. *)
Definition Counter (doc_types : list string) (label : string) : Z :=
  Z.of_nat (length (filter (λ x, x = label) doc_types)).

Definition infer_process (doc_types : list string) : string :=
  let counts := Counter doc_types in
  if (counts "Shareholder Resolution" >=? 1)
     && (counts "Articles of Association" >=? 1)
  then "AoA Amendment"
  else if ((counts "Articles of Association" >=? 1)
           && ((counts "Shareholder Resolution" >=? 1)
               || (counts "Board Resolution" >=? 1)))
          || (counts "Incorporation Application Form" >=? 1)
  then "Company Incorporation (Private Company)"
  else if counts "Employment Contract" >=? 1
  then "Employment Compliance"
  else if counts "Appropriate Policy Document" >=? 1
  then "Data Protection Compliance"
  else "Unknown".

End Inference.

(** ** The source manifest: [manifest.py] *)

Module Manifest.
Import Py.

Local Open Scope string_scope.

(** What [json.load] builds.  The members of an object are kept in file
    order; as in the [dict] that Python builds, the last member with a
    given name is the one that counts. *)
Inductive json : Type :=
  | JNull
  | JBool (b : bool)
  | JNumber (literal : string)
  | JString (s : string)
  | JArray (items : list json)
  | JObject (members : list (string * json)).

(** What [open(manifest_path, "r", encoding="utf-8")] followed by
    [json.load] does at a path: there is no file there; the bytes of the
    file are not UTF-8; its text is rejected by the JSON decoder; the two
    calls fail in another way, raising [e] (a directory, a file that may
    not be read, nesting too deep for the decoder, an integer literal
    beyond the digit limit, ...); or they give the parsed value. *)
Inductive manifest_file : Type :=
  | NoSuchFile
  | NotUtf8
  | NotJson
  | Fails (e : exn)
  | Json (data : json).

(** The dataclass.  Its annotations ([str], [List[str]]) are not checked
    when an entry is built, so a field holds whatever the file had. *)
Record SourceEntry : Type := {
  id : json;
  title : json;
  type : json;
  path : json;
  citation : json;
  scope : json
}.

Record SourcesManifest : Type := { sources : list SourceEntry }.

Definition FileNotFoundError : exn := Exn "FileNotFoundError" "".
Definition UnicodeDecodeError : exn := Exn "UnicodeDecodeError" "".
Definition JSONDecodeError : exn := Exn "JSONDecodeError" "".
Definition KeyError (key : string) : exn := Exn "KeyError" key.
Definition AttributeError (attr : string) : exn := Exn "AttributeError" attr.
Definition TypeError (what : string) : exn := Exn "TypeError" what.

(** [with open(manifest_path, ...) as f: data = json.load(f)]: nothing
    is caught, so what the two calls raise is what the block raises. *)
Definition open_and_parse (file : manifest_file) : outcome exn json :=
  match file with
  | NoSuchFile => Raised FileNotFoundError
  | NotUtf8 => Raised UnicodeDecodeError
  | NotJson => Raised JSONDecodeError
  | Fails e => Raised e
  | Json data => Returned data
  end.

(** Lookup in a [dict]. *)
Definition dict_lookup (key : string) (members : list (string * json))
    : option json :=
  fold_left (λ found member, if String.eqb member.1 key then Some member.2
                             else found)
            members None.

(** [value.get(key, fallback)] *)
Definition get (value : json) (key : string) (fallback : json)
    : outcome exn json :=
  match value with
  | JObject members => Returned (default fallback (dict_lookup key members))
  | _ => Raised (AttributeError "get")
  end.

(** [value[key]] for a string key. *)
Definition subscript (value : json) (key : string) : outcome exn json :=
  match value with
  | JObject members =>
      match dict_lookup key members with
      | Some v => Returned v
      | None => Raised (KeyError key)
      end
  | JArray _ => Raised (TypeError "list indices must be integers")
  | JString _ => Raised (TypeError "string indices must be integers")
  | _ => Raised (TypeError "object is not subscriptable")
  end.

(** [for item in value]: the elements of a list, the keys of a dict, the
    characters of a string. *)
Definition iterate (value : json) : outcome exn (list json) :=
  match value with
  | JArray items => Returned items
  | JObject members => Returned (map (λ member, JString member.1) members)
  | JString s =>
      Returned (map (λ c, JString (String c EmptyString))
                    (list_ascii_of_string s))
  | _ => Raised (TypeError "object is not iterable")
  end.

(** [SourceEntry(id=item["id"], ..., scope=item.get("scope", []))] *)
Definition make_entry (item : json) : outcome exn SourceEntry :=
  bind (subscript item "id") (λ id_,
  bind (subscript item "title") (λ title_,
  bind (subscript item "type") (λ type_,
  bind (subscript item "path") (λ path_,
  bind (get item "citation" (JString "")) (λ citation_,
  bind (get item "scope" (JArray [])) (λ scope_,
  Returned {| id := id_; title := title_; type := type_; path := path_;
              citation := citation_; scope := scope_ |})))))).

(** The [for] loop of [load]: entries are appended until one fails. *)
Fixpoint make_entries (items : list json) (entries : list SourceEntry)
    : outcome exn (list SourceEntry) :=
  match items with
  | [] => Returned entries
  | item :: items' =>
      bind (make_entry item) (λ entry,
      make_entries items' (entries ++ [entry]))
  end.

(** The files on disk, as far as [load] sees them, and the module
    constant [MANIFEST_PATH], which is computed from where the package is
    installed. *)
Record disk : Type := Disk {
  MANIFEST_PATH : string;
  file_at : string → manifest_file
}.

(** [path or MANIFEST_PATH] *)
Definition manifest_path (d : disk) (path : option string) : string :=
  match path with
  | Some p => if String.eqb p "" then MANIFEST_PATH d else p
  | None => MANIFEST_PATH d
  end.

Definition load (d : disk) (path : option string)
    : outcome exn SourcesManifest :=
  bind (open_and_parse (file_at d (manifest_path d path))) (λ data,
  bind (get data "sources" (JArray [])) (λ listed,
  bind (iterate listed) (λ items,
  bind (make_entries items []) (λ entries,
  Returned {| sources := entries |})))).

Definition all (m : SourcesManifest) : list SourceEntry := sources m.

(** The fields the specification calls required. *)
Definition required_fields : list string := [ "id"; "title"; "type"; "path" ].

(** An entry of the file has a field. *)
Definition has_field (item : json) (key : string) : Prop :=
  match item with
  | JObject members => is_Some (dict_lookup key members)
  | _ => False
  end.

(** The shape the specification gives the manifest: an object whose
    ["sources"], when there, is a list of objects. *)
Definition is_object (value : json) : Prop :=
  match value with JObject _ => True | _ => False end.

Definition well_shaped (data : json) (items : list json) : Prop :=
  is_object data ∧
  get data "sources" (JArray []) = Returned (JArray items) ∧
  Forall is_object items.

End Manifest.

(** ** Text extraction: [_read_text] and [read_text_from_source] *)

Module Extraction.
Import Py Manifest.

Local Open Scope string_scope.

(** [os.path.join(a, b)] on a POSIX system. *)
Definition ends_with_slash (p : string) : bool :=
  match last (list_ascii_of_string p) with
  | Some c => Ascii.eqb c "/"
  | None => false
  end.

Definition path_join (a b : string) : string :=
  if String.prefix "/" b then b
  else if String.eqb a "" || ends_with_slash a then a +:+ b
  else a +:+ "/" +:+ b.

(** The text after the last occurrence of a character, when there is
    one. *)
Fixpoint after_last (c : ascii) (p : string) : option string :=
  match p with
  | EmptyString => None
  | String c' rest =>
      match after_last c rest with
      | Some suffix => Some suffix
      | None => if Ascii.eqb c' c then Some rest else None
      end
  end.

Fixpoint strip_leading_dots (name : string) : string :=
  match name with
  | String "." rest => strip_leading_dots rest
  | _ => name
  end.

(** [os.path.splitext(p)[1]]: from the last dot of the file name on, the
    leading dots of the name not counted. *)
Definition splitext_ext (p : string) : string :=
  let name := default p (after_last "/" p) in
  match after_last "." (strip_leading_dots name) with
  | Some suffix => String "." suffix
  | None => ""
  end.

(** ["\n".join(parts)] *)
Definition join_lines (parts : list string) : string :=
  match parts with
  | [] => ""
  | part :: parts' =>
      fold_left (λ joined next, joined +:+ String "010" next) parts' part
  end.

(** The file system and the optional parsers.  [read_text] is
    [open(p, "r", encoding="utf-8", errors="ignore")] followed by
    [f.read()]; a parser that is [None] was not importable. *)
Record world : Type := World {
  path_exists : string → bool;
  read_text : string → outcome exn string;
  BeautifulSoup : option (string → outcome exn string);
  pypdf : option (string → outcome exn (list (option string)));
  docx : option (string → outcome exn (list string))
}.

Section Extract.
Context (lower : string → string).

Definition _resolve_source_path (w : world) (root_dir rel_path : string)
    : option string :=
  let candidates :=
    [ path_join root_dir rel_path;
      path_join (path_join root_dir "data") rel_path ] in
  List.find (path_exists w) candidates.

(** [page.extract_text() or ""] *)
Definition page_text (extracted : option string) : string :=
  default "" extracted.

(** The last branch: the raw read inside [try] / [except Exception]. *)
Definition raw_read (w : world) (abs_path : string) : outcome exn string :=
  match read_text w abs_path with
  | Returned text => Returned text
  | Raised _ => Returned ""
  end.

(** [cond and parser]: the parser when the extension matched and the
    parser was importable. *)
Definition and_parser {P : Type} (cond : bool) (parser : option P)
    : option P :=
  if cond then parser else None.

Definition _read_text (w : world) (abs_path : string) : outcome exn string :=
  let ext := lower (splitext_ext abs_path) in
  match and_parser (bool_decide (ext ∈ [ ".html"; ".htm" ])) (BeautifulSoup w)
  with
  | Some get_text => bind (read_text w abs_path) get_text
  | None =>
  match and_parser (bool_decide (ext ∈ [ ".pdf" ])) (pypdf w) with
  | Some pages_of =>
      bind (pages_of abs_path) (λ pages,
      Returned (join_lines (map page_text pages)))
  | None =>
  match and_parser (bool_decide (ext ∈ [ ".docx" ])) (docx w) with
  | Some paragraphs_of =>
      bind (paragraphs_of abs_path) (λ paragraphs,
      Returned (join_lines paragraphs))
  | None => raw_read w abs_path
  end end end.

Definition read_text_from_source (w : world) (root_dir : string)
    (source : SourceEntry) : outcome exn string :=
  match path source with
  | JString rel_path =>
      match _resolve_source_path w root_dir rel_path with
      | Some abs_path =>
          if String.eqb abs_path "" then Returned ""
          else _read_text w abs_path
      | None => Returned ""
      end
  | _ => Raised (TypeError "expected str, bytes or os.PathLike object")
  end.

(** The branch of [_read_text] that a path takes. *)
Inductive branch : Type := Html | Pdf | Docx | Raw.

Definition branch_of (w : world) (abs_path : string) : branch :=
  let ext := lower (splitext_ext abs_path) in
  if bool_decide (ext ∈ [ ".html"; ".htm" ])
     && bool_decide (is_Some (BeautifulSoup w))
  then Html
  else if bool_decide (ext ∈ [ ".pdf" ]) && bool_decide (is_Some (pypdf w))
  then Pdf
  else if bool_decide (ext ∈ [ ".docx" ]) && bool_decide (is_Some (docx w))
  then Docx
  else Raw.
End Extract.

End Extraction.

(** ** Retrieval: [query_improved] *)

Module Retrieval.
Import Py.

Local Open Scope string_scope.

(** A candidate [(d, md)]: the passage and its metadata, every value
    already turned into a string. *)
Definition candidate : Type := string * gmap string string.

(** What [collection.query] hands back for the one query text. *)
Record query_result : Type := QueryResult {
  documents : list string;
  metadatas : list (option (gmap string string))
}.

Section Query.
(** [str.lower], which depends on the Unicode tables. *)
Context (lower : string → string).
(** Relevance scores and their [<]. *)
Context {score : Type} (score_lt : score → score → bool).

(** A loaded cross-encoder: [predict]. *)
Definition reranker : Type :=
  list (string * string) → outcome exn (list score).

(** A collection of the vector store: [collection.query] for one query
    text and a number of results. *)
Definition collection : Type := string → Z → outcome exn query_result.

(** The optional imports and the vector store. *)
Record backends : Type := Backends {
  chromadb : option (string → outcome exn collection);
  CrossEncoder : option (string → outcome exn reranker)
}.

(** [any(s in m.get("scope", "").lower() for s in scope_lower)] *)
Definition scope_matches (scope_lower : list string) (c : candidate) : bool :=
  existsb (λ s, contains (lower (default "" (c.2 !! "scope"))) s) scope_lower.

(** [m.get("source_id") in set(filter_source_ids)] *)
Definition source_id_matches (ids : gset string) (c : candidate) : bool :=
  match c.2 !! "source_id" with
  | Some source_id => bool_decide (source_id ∈ ids)
  | None => false
  end.

(** [if filter_scopes: ...] *)
Definition filter_by_scopes (filter_scopes : option (list string))
    (candidates : list candidate) : list candidate :=
  match given filter_scopes with
  | Some scopes =>
      let scope_lower := map lower scopes in
      let filtered := List.filter (scope_matches scope_lower) candidates in
      if truthy filtered then filtered else candidates
  | None => candidates
  end.

(** [if filter_source_ids: ...] *)
Definition filter_by_source_ids (filter_source_ids : option (list string))
    (candidates : list candidate) : list candidate :=
  match given filter_source_ids with
  | Some ids =>
      let filtered :=
        List.filter (source_id_matches (list_to_set ids)) candidates in
      if truthy filtered then filtered else candidates
  | None => candidates
  end.

(** The body of the [try]: load the model, score every pair, sort. *)
Definition rank (load : string → outcome exn reranker) (query_text : string)
    (candidates : list candidate) : outcome exn (list candidate) :=
  bind (load "cross-encoder/ms-marco-MiniLM-L-6-v2") (λ reranker,
  let pairs := map (λ c : candidate, (query_text, c.1)) candidates in
  bind (reranker pairs) (λ scores,
  let ranked := sorted score_lt snd true (zip candidates scores) in
  Returned (map fst ranked))).

(** [if use_reranker and CrossEncoder is not None and candidates: ...],
    with [except Exception: pass]. *)
Definition rerank (b : backends) (use_reranker : bool) (query_text : string)
    (candidates : list candidate) : list candidate :=
  match CrossEncoder b with
  | Some load =>
      if use_reranker && truthy candidates then
        match rank load query_text candidates with
        | Returned ranked => ranked
        | Raised _ => candidates
        end
      else candidates
  | None => candidates
  end.

(** [{"text": d, **m}]: a key ["text"] of the metadata wins. *)
Definition passage (c : candidate) : gmap string string :=
  c.2 ∪ {[ "text" := c.1 ]}.

Definition query_improved (b : backends) (query_text : string)
    (top_k pre_k : Z) (collection_name : string)
    (filter_scopes filter_source_ids : option (list string))
    (use_reranker : bool) : outcome exn (list (gmap string string)) :=
  match chromadb b with
  | None => Raised (Exn "AssertionError" "chromadb not installed")
  | Some get_collection =>
      bind (get_collection collection_name) (λ collection,
      bind (collection query_text (Z.max pre_k top_k)) (λ pre,
      let candidates :=
        zip_with (λ d m, (d, default ∅ m)) (documents pre) (metadatas pre) in
      let candidates := filter_by_scopes filter_scopes candidates in
      let candidates := filter_by_source_ids filter_source_ids candidates in
      let candidates := rerank b use_reranker query_text candidates in
      let trimmed := slice_to candidates top_k in
      Returned (map passage trimmed)))
  end.
End Query.

End Retrieval.

(** ** Word documents, as far as the code reads them *)

Module Docx.

(** A paragraph: its text and the name of its style, when it has one
    ([getattr(paragraph.style, "name", None)]). *)
Record paragraph : Type := Paragraph {
  text : string;
  style_name : option string
}.

(** [doc.paragraphs] *)
Definition Document : Type := list paragraph.

End Docx.

(** Strings as sequences, for the slices the code takes of them. *)
Module Str.
Import Py.

Definition chars (s : string) : list ascii := list_ascii_of_string s.
Definition of_chars (l : list ascii) : string := string_of_list_ascii l.

(** [s[:n]] *)
Definition prefix_to (s : string) (n : Z) : string :=
  of_chars (slice_to (chars s) n).

(** [sep.join(parts)] *)
Definition join (sep : string) (parts : list string) : string :=
  match parts with
  | [] => ""%string
  | part :: parts' =>
      fold_left (λ joined next, (joined +:+ sep +:+ next)%string) parts' part
  end.

(** A line feed. *)
Definition LF : string := String "010" EmptyString.

End Str.

(** ** The generative model: [gemini_client.py] *)

Module Gemini.
Import Py Str.

Local Open Scope string_scope.

(** What [generate_content] hands back, as far as [resp.text] goes: the
    attribute can be missing, reading it can raise, or it is a string. *)
Inductive response : Type :=
  | NoText
  | TextRaises (e : exn)
  | Text (t : string).

(** [GeminiClient]: the flag and the model, [None] when disabled. *)
Record GeminiClient : Type := {
  model_name : string;
  enabled : bool;
  model : option (string → outcome exn response)
}.

Section Classify.
(** [str.lower] and [str.strip], which depend on the Unicode tables, and
    the text that an f-string puts for a list of labels. *)
Context (lower strip : string → string) (show_labels : list string → string).

Definition classify_prompt (text : string) (labels : list string) : string :=
  "You are a legal document classifier for ADGM corporate workflows." +:+ LF
  +:+ "Choose only one of these labels: " +:+ show_labels labels +:+ "."
  +:+ LF
  +:+ "Given the document content below, return only the best label "
  +:+ "without explanation." +:+ LF
  +:+ "Document:" +:+ LF +:+ prefix_to text 4000.

(** The [for] loop over the labels and the exact-match test after it. *)
Definition normalise (candidate : string) (labels : list string)
    : option string :=
  match List.find (λ label, contains (lower candidate) (lower label)) labels
  with
  | Some label => Some label
  | None => if bool_decide (candidate ∈ labels) then Some candidate else None
  end.

Definition classify (self : GeminiClient) (text : string)
    (labels : list string) : option string :=
  if negb (enabled self) then None
  else
    match model self with
    | None => None
    | Some generate_content =>
        match generate_content (classify_prompt text labels) with
        | Returned (Text t) =>
            if String.eqb t "" then None else normalise (strip t) labels
        | Returned NoText => None
        | Returned (TextRaises _) => None
        | Raised _ => None
        end
    end.
End Classify.

End Gemini.

(** ** The classifier: [classifier.py] *)

Module Classifier.
Import Py Str Docx Gemini.

Local Open Scope string_scope.

Definition KNOWN_LABELS : list string :=
  [ "Articles of Association";
    "Shareholder Resolution";
    "Board Resolution";
    "Incorporation Application Form";
    "Register of Members";
    "Register of Directors";
    "Employment Contract";
    "Data Protection Policy";
    "Appropriate Policy Document";
    "Other" ].

Section Classify.
Context (lower strip : string → string) (show_labels : list string → string).
(** [re.search(pattern, text) is not None] *)
Context (re_search : string → string → bool).

(** The filename rules, in order. *)
Definition by_filename (lower_name : string) : option string :=
  let has := contains lower_name in
  if has "articles" && has "association" then Some "Articles of Association"
  else if has "employment" && has "contract" then Some "Employment Contract"
  else if has "register" && has "members" then Some "Register of Members"
  else if has "register" && has "directors" then Some "Register of Directors"
  else if has "resolution"
          && (has "incorporation" || has "amendment" || has "articles")
  then Some "Shareholder Resolution"
  else if has "application" && (has "incorporation" || has "registration")
  then Some "Incorporation Application Form"
  else if has "appropriate_policy" then Some "Appropriate Policy Document"
  else if has "data_protection" && has "policy"
  then Some "Data Protection Policy"
  else None.

(** The content rules, in order. *)
Definition by_content (text_lower : string) : option string :=
  if re_search "articles of association" text_lower
  then Some "Articles of Association"
  else if re_search "employment\s+contract|employed\s+by" text_lower
  then Some "Employment Contract"
  else if re_search "register\s+of\s+members" text_lower
  then Some "Register of Members"
  else if re_search "register\s+of\s+directors" text_lower
  then Some "Register of Directors"
  else if re_search "(shareholder|board)\s+resolution" text_lower
  then Some "Shareholder Resolution"
  else if re_search "application\s+for\s+(incorporation|registration)"
            text_lower
  then Some "Incorporation Application Form"
  else None.

(** ["\n".join(p.text for p in doc.paragraphs[:150])[:8000]] *)
Definition full_text (doc : Document) : string :=
  prefix_to (join LF (map text (slice_to doc 150))) 8000.

(** [DocumentClassifier.classify]; [gemini] is [self.gemini]. *)
Definition classify (gemini : GeminiClient) (filename : string)
    (doc : Document) : string :=
  match by_filename (lower filename) with
  | Some label => label
  | None =>
      match by_content (lower (full_text doc)) with
      | Some label => label
      | None =>
          match Gemini.classify lower strip show_labels gemini
                  (full_text doc) KNOWN_LABELS with
          | Some gemini_label =>
              if String.eqb gemini_label "" then "Other" else gemini_label
          | None => "Other"
          end
      end
  end.
End Classify.

End Classifier.

(** ** Retrieval without filters: [query] *)

Module BasicQuery.
Import Py Retrieval.

Local Open Scope string_scope.

Section Query.
Context {score : Type}.

(** [query(top_k, query_text, collection_name)] *)
Definition query (b : backends (score := score)) (top_k : Z)
    (query_text collection_name : string)
    : outcome exn (list (gmap string string)) :=
  match chromadb b with
  | None => Raised (Exn "AssertionError" "chromadb not installed")
  | Some get_collection =>
      bind (get_collection collection_name) (λ collection,
      bind (collection query_text top_k) (λ result,
      Returned
        (zip_with (λ d m, passage (d, default ∅ m))
                  (documents result) (metadatas result))))
  end.
End Query.

End BasicQuery.

(** ** Looking sources up: [find] and [by_type] *)

Module ManifestQueries.
Import Py Manifest.

(** [value == s] for a string [s]: only the same string is equal. *)
Definition equals_str (value : json) (s : string) : bool :=
  match value with
  | JString t => String.eqb t s
  | _ => false
  end.

(** [SourcesManifest.by_type] *)
Definition by_type (m : SourcesManifest) (source_type : string)
    : list SourceEntry :=
  List.filter (λ s, equals_str (type s) source_type) (sources m).

(** [SourcesManifest.find] *)
Definition find (m : SourcesManifest) (source_id : string)
    : option SourceEntry :=
  List.find (λ s, equals_str (id s) source_id) (sources m).

End ManifestQueries.

(** ** Document structure: [parser.py] *)

Module Parser.
Import Py Str Docx.

Local Open Scope string_scope.

(** The values the blocks hold. *)
Inductive value : Type :=
  | VStr (s : string)
  | VInt (n : Z)
  | VList (l : list (gmap string value)).

Definition block : Type := gmap string value.

Section Parse.
(** [str.lower], [str.strip], [str.split()], [str.isdigit] and [int],
    which depend on the Unicode tables; [int] can refuse digits that
    [isdigit] accepts. *)
Context (lower strip : string → string) (split : string → list string).
Context (isdigit : string → bool) (int : string → outcome exn Z).

Definition detect_heading_level (style_name : option string)
    : outcome exn (option Z) :=
  match style_name with
  | None => Returned None
  | Some name =>
      if String.eqb name "" then Returned None
      else if String.prefix "heading" (lower name) then
        match split name with
        | [ _; number ] =>
            if isdigit number then bind (int number) (λ n, Returned (Some n))
            else Returned None
        | _ => Returned None
        end
      else Returned None
  end.

(** The body of the loop of [parse_document_structure]: nothing for a
    blank paragraph, else the block to append. *)
Definition parse_paragraph (p : paragraph) : outcome exn (option block) :=
  let text := strip (Docx.text p) in
  if String.eqb text "" then Returned None
  else
    bind (detect_heading_level (style_name p)) (λ heading_level,
    match heading_level with
    | Some level =>
        Returned (Some {[ "type" := VStr "heading"; "level" := VInt level;
                          "text" := VStr text ]})
    | None =>
        Returned (Some {[ "type" := VStr "paragraph"; "text" := VStr text ]})
    end).

Fixpoint parse_loop (paragraphs : list paragraph) (blocks : list block)
    : outcome exn (list block) :=
  match paragraphs with
  | [] => Returned blocks
  | p :: rest =>
      bind (parse_paragraph p) (λ parsed,
      match parsed with
      | Some b => parse_loop rest (blocks ++ [b])
      | None => parse_loop rest blocks
      end)
  end.

Definition parse_document_structure (doc : Document)
    : outcome exn (list block) :=
  parse_loop doc [].
End Parse.

(** [sum(1 for b in blocks if b["type"] == kind)] *)
Fixpoint count_type (kind : string) (blocks : list block) : outcome exn Z :=
  match blocks with
  | [] => Returned 0
  | b :: rest =>
      match b !! "type" with
      | None => Raised (Exn "KeyError" "type")
      | Some v =>
          bind (count_type kind rest) (λ n,
          Returned (match v with
                    | VStr s => if String.eqb s kind then 1 + n else n
                    | _ => n
                    end))
      end
  end.

Definition summarize_structure (blocks : list block)
    : outcome exn (gmap string value) :=
  bind (count_type "heading" blocks) (λ num_headings,
  bind (count_type "paragraph" blocks) (λ num_paragraphs,
  Returned {[ "num_headings" := VInt num_headings;
              "num_paragraphs" := VInt num_paragraphs;
              "preview" := VList (slice_to blocks 10) ]})).

(** [extract_full_text(doc, max_chars)] *)
Definition extract_full_text (doc : Document) (max_chars : Z) : string :=
  prefix_to (join LF (map Docx.text doc)) max_chars.

End Parser.

(** ** Rule checks: the numbered-paragraph heuristic of [checks.py] *)

Module Checks.
Import Py Str Docx.

Local Open Scope string_scope.
Local Open Scope Z_scope.

Section Numbered.
(** [str.strip] and [re.match(pattern, text) is not None]. *)
Context (strip : string → string) (re_match : string → string → bool).

Definition _paragraph_starts_with_number (text : string) : bool :=
  re_match "^\s*\d+\s*(\.|\)|-|–|:)\s+" text.

(** The loop of [_has_sequential_numbered_paragraphs], entered with the
    count so far. *)
Fixpoint numbered_loop (paragraphs : list paragraph) (min_count count : Z)
    : bool :=
  match paragraphs with
  | [] => false
  | p :: rest =>
      let t := strip (Docx.text p) in
      if String.eqb t "" then numbered_loop rest min_count count
      else if _paragraph_starts_with_number t then
        if count + 1 >=? min_count then true
        else numbered_loop rest min_count (count + 1)
      else numbered_loop rest min_count count
  end.

Definition _has_sequential_numbered_paragraphs (doc : Document)
    (min_count : Z) : bool :=
  numbered_loop doc min_count 0.

(** [_summarize_doc(doc, max_chars)] *)
Definition _summarize_doc (doc : Document) (max_chars : Z) : string :=
  prefix_to (join LF (map Docx.text doc)) max_chars.
End Numbered.

End Checks.

(** ** The string methods on ASCII text

    [str.strip], [str.split], [str.isdigit] and [int] depend on the
    Unicode tables and are parameters of the code that calls them; these
    are their actions on ASCII text, for running the code on examples. *)

Module AsciiText.
Import Py Str.

Definition is_space (c : ascii) : bool :=
  let n := nat_of_ascii c in
  ((9 <=? n) && (n <=? 13) || (n =? 32))%nat.

Definition is_digit (c : ascii) : bool :=
  let n := nat_of_ascii c in
  ((48 <=? n) && (n <=? 57))%nat.

Fixpoint lstrip_chars (l : list ascii) : list ascii :=
  match l with
  | c :: rest => if is_space c then lstrip_chars rest else l
  | [] => []
  end.

Definition ascii_strip (s : string) : string :=
  of_chars (reverse (lstrip_chars (reverse (lstrip_chars (chars s))))).

Definition ascii_rstrip (s : string) : string :=
  of_chars (reverse (lstrip_chars (reverse (chars s)))).

(** The words of a text, the word being read last. *)
Fixpoint split_chars (l word : list ascii) : list string :=
  match l with
  | [] => match word with [] => [] | _ => [ of_chars (reverse word) ] end
  | c :: rest =>
      if is_space c then
        match word with
        | [] => split_chars rest []
        | _ => of_chars (reverse word) :: split_chars rest []
        end
      else split_chars rest (c :: word)
  end.

Definition ascii_split (s : string) : list string := split_chars (chars s) [].

Definition ascii_isdigit (s : string) : bool :=
  match chars s with
  | [] => false
  | l => forallb is_digit l
  end.

Definition ascii_int (s : string) : outcome exn Z :=
  if ascii_isdigit s then
    Returned
      (fold_left (λ n c, 10 * n + Z.of_nat (nat_of_ascii c) - 48) (chars s) 0)
  else Raised (Exn "ValueError" s).

End AsciiText.

(** * Properties *)

(** ** Slices *)

Module PyFacts.
Import Py.

Section Sequences.
Context {A : Type}.
Implicit Types l : list A.

Lemma len_nonneg l : 0 ≤ len l.
Proof. unfold len. lia. Qed.

Lemma len_nil_inv l : len l = 0 → l = [].
Proof. destruct l; [done | unfold len; simpl; lia]. Qed.

Lemma len_app l k : len (l ++ k) = len l + len k.
Proof. unfold len. rewrite length_app. lia. Qed.

Lemma truthy_true l : l ≠ [] → truthy l = true.
Proof. by destruct l. Qed.

(** With both bounds inside the sequence a slice is a window. *)
Lemma slice_window l a b :
  0 ≤ a → a ≤ b → b ≤ len l →
  slice l a b = take (Z.to_nat (b - a)) (drop (Z.to_nat a) l).
Proof.
  intros Ha Hab Hb. unfold slice, clamp_index.
  destruct (Z.ltb_spec a 0); [lia |].
  destruct (Z.ltb_spec b 0); [lia |].
  by rewrite !Z.min_l by lia.
Qed.

Lemma len_slice_window l a b :
  0 ≤ a → a ≤ b → b ≤ len l → len (slice l a b) = b - a.
Proof.
  intros Ha Hab Hb. rewrite slice_window by done.
  unfold len in *. rewrite length_take, length_drop. lia.
Qed.

Lemma slice_all l : slice l 0 (len l) = l.
Proof.
  rewrite slice_window by (pose proof (len_nonneg l); lia).
  simpl. rewrite drop_0, take_ge; [done |]. unfold len. lia.
Qed.

(** A prefix followed by the window that starts where it ends. *)
Lemma take_window l (p e : nat) :
  (p ≤ e)%nat → take p l ++ take (e - p) (drop p l) = take e l.
Proof.
  intros Hpe. rewrite take_take_drop. f_equal. lia.
Qed.
End Sequences.

(** [needle in haystack]: the needle occurs somewhere in the haystack. *)
Lemma append_String c (s t : string) :
  (String c s ++ t)%string = String c (s ++ t)%string.
Proof. reflexivity. Qed.

Lemma prefix_app (needle haystack : string) :
  String.prefix needle haystack = true ↔
  ∃ post, haystack = (needle ++ post)%string.
Proof.
  revert haystack. induction needle as [| c needle IH]; intros haystack.
  - split; [intros _; by exists haystack |]. intros _. by destruct haystack.
  - destruct haystack as [| c' haystack]; simpl.
    + split; [done | by intros [post ?]].
    + destruct (Ascii.ascii_dec c c') as [-> | Hne].
      * rewrite IH.
        split; intros [post Hpost]; exists post;
          rewrite append_String in *; congruence.
      * split; [done |]. intros [post Hpost].
        rewrite append_String in Hpost. congruence.
Qed.

Lemma contains_occurs (haystack needle : string) :
  contains haystack needle = true ↔
  ∃ pre post, haystack = (pre ++ needle ++ post)%string.
Proof.
  induction haystack as [| c haystack IH].
  - change (contains "" needle) with (String.prefix needle "" || false).
    rewrite orb_false_r, prefix_app. split.
    + intros [post ->]. by exists EmptyString, post.
    + intros ([| ? ?] & post & Heq); [by exists post | done].
  - change (contains (String c haystack) needle)
      with (String.prefix needle (String c haystack)
            || contains haystack needle).
    rewrite orb_true_iff, prefix_app, IH. split.
    + intros [[post ->] | (pre & post & ->)].
      * by exists EmptyString, post.
      * by exists (String c pre), post.
    + intros ([| c' pre] & post & Heq).
      * left. by exists post.
      * right. exists pre, post. rewrite append_String in Heq. congruence.
Qed.

(** *** The stable sort *)

Section Sorted.
Context {A K : Type} (lt : K → K → bool) (key : A → K).
Implicit Types (x y : A) (l : list A).

(** [<] on keys is a strict weak order: it is asymmetric, and an element
    below another is below, or the other is above, any third one. *)
Definition strict_weak_order : Prop :=
  (∀ a b, lt a b = true → lt b a = false) ∧
  (∀ a b c, lt a c = true → lt a b = true ∨ lt b c = true).

(** No element is followed by one with a smaller key, or by one with a
    larger key. *)
Definition ascending l : Prop :=
  StronglySorted (λ x y, lt (key y) (key x) = false) l.
Definition descending l : Prop :=
  StronglySorted (λ x y, lt (key x) (key y) = false) l.

(** The elements whose key is neither below nor above [k]. *)
Definition keyed (k : K) l : list A :=
  filter (λ x, lt (key x) k = false ∧ lt k (key x) = false) l.

Lemma insert_sorted_perm x l : insert_sorted lt key x l ≡ₚ x :: l.
Proof.
  induction l as [| y l IH]; [done |]. simpl.
  destruct (lt (key y) (key x)); [| done].
  rewrite IH. apply Permutation_swap.
Qed.

Lemma sort_stable_perm l : sort_stable lt key l ≡ₚ l.
Proof.
  induction l as [| x l IH]; [done |]. simpl.
  by rewrite insert_sorted_perm, IH.
Qed.

Lemma sorted_perm reverse_ l : sorted lt key reverse_ l ≡ₚ l.
Proof.
  unfold sorted. destruct reverse_.
  - by rewrite reverse_Permutation, sort_stable_perm, reverse_Permutation.
  - apply sort_stable_perm.
Qed.

Lemma keyed_reverse k l : keyed k (reverse l) = reverse (keyed k l).
Proof. apply filter_reverse. Qed.

Lemma descending_reverse l : ascending l → descending (reverse l).
Proof.
  unfold ascending, descending. induction 1 as [| x l Hl IH Hx].
  - constructor.
  - rewrite reverse_cons. apply StronglySorted_app_2; [| done |].
    + intros y z Hy Hz. apply list_elem_of_singleton in Hz as ->.
      rewrite Forall_forall in Hx. apply Hx. by apply elem_of_reverse.
    + repeat constructor.
Qed.

Context (Hlt : strict_weak_order).

Lemma insert_sorted_ascending x l :
  ascending l → ascending (insert_sorted lt key x l).
Proof.
  destruct Hlt as [Hasym Hneg]. unfold ascending.
  induction 1 as [| y l Hl IH Hy]; simpl.
  - repeat constructor.
  - destruct (lt (key y) (key x)) eqn:Hyx.
    + constructor; [done |].
      rewrite insert_sorted_perm. constructor; [by apply Hasym | done].
    + constructor; [by constructor |]. constructor; [done |].
      eapply Forall_impl; [exact Hy |]. intros z Hzy. simpl in Hzy.
      destruct (lt (key z) (key x)) eqn:Hzx; [| done].
      destruct (Hneg _ (key y) _ Hzx); congruence.
Qed.

Lemma sort_stable_ascending l : ascending (sort_stable lt key l).
Proof.
  induction l as [| x l IH]; simpl.
  - constructor.
  - by apply insert_sorted_ascending.
Qed.

Lemma keyed_insert_sorted k x l :
  keyed k (insert_sorted lt key x l) = keyed k (x :: l).
Proof.
  destruct Hlt as [Hasym Hneg]. unfold keyed.
  induction l as [| y l IH]; [done |]. simpl.
  destruct (lt (key y) (key x)) eqn:Hyx; [| done].
  rewrite (filter_cons _ y), IH, !filter_cons.
  repeat case_decide; try done.
  destruct (Hneg _ k _ Hyx); naive_solver congruence.
Qed.

Lemma keyed_sort_stable k l : keyed k (sort_stable lt key l) = keyed k l.
Proof.
  induction l as [| x l IH]; [done |]. simpl.
  rewrite keyed_insert_sorted. unfold keyed in *.
  by rewrite !filter_cons, IH.
Qed.

(** [sorted(..., reverse=True)] rearranges its input into descending
    order of the keys and keeps elements with equal keys in the order
    they came in. *)
Lemma sorted_reverse_stable l :
  descending (sorted lt key true l) ∧
  ∀ k, keyed k (sorted lt key true l) = keyed k l.
Proof.
  unfold sorted. split.
  - apply descending_reverse, sort_stable_ascending.
  - intros k.
    by rewrite keyed_reverse, keyed_sort_stable, keyed_reverse,
      reverse_involutive.
Qed.
End Sorted.

End PyFacts.

(** ** The chunker *)

Module ChunkerFacts.
Import Py PyFacts Chunker.

Lemma ceil_div_bounds a b :
  0 < b → (ceil_div a b - 1) * b < a ≤ ceil_div a b * b.
Proof.
  intros Hb. unfold ceil_div.
  pose proof (Z.div_mod (- a) b ltac:(lia)) as Hdm.
  pose proof (Z.mod_pos_bound (- a) b Hb) as Hm.
  nia.
Qed.

Lemma ceil_div_unique a b q :
  0 < b → (q - 1) * b < a ≤ q * b → ceil_div a b = q.
Proof.
  intros Hb Hq. pose proof (ceil_div_bounds a b Hb). nia.
Qed.

Section Chunking.
Context {char : Type}.
Implicit Types (text : list char) (chunks : list (list char)).

(** More fuel never changes a result. *)
Lemma chunk_loop_fuel_mono text size overlap fuel fuel' start chunks r :
  chunk_loop fuel text size overlap start chunks = Some r →
  (fuel ≤ fuel')%nat →
  chunk_loop fuel' text size overlap start chunks = Some r.
Proof.
  revert fuel' start chunks.
  induction fuel as [| fuel IH]; intros fuel' start chunks Hrun Hle;
    [done |].
  destruct fuel' as [| fuel']; [lia |].
  simpl in *. destruct (start <? len text); [| done].
  destruct (loop_body text size overlap start chunks); [done |].
  apply IH; [done | lia].
Qed.

Lemma chunk_text_returns_functional text size overlap r1 r2 :
  chunk_text_returns text size overlap r1 →
  chunk_text_returns text size overlap r2 → r1 = r2.
Proof.
  intros [f1 H1] [f2 H2]. unfold chunk_text in *.
  apply chunk_loop_fuel_mono with (fuel' := (f1 `max` f2)%nat) in H1; [| lia].
  apply chunk_loop_fuel_mono with (fuel' := (f1 `max` f2)%nat) in H2; [| lia].
  congruence.
Qed.

(** Whenever [overlap < size] a pass that continues moves [start]
    forward, so the loop ends within [len(text) - start] passes. *)
Lemma loop_body_progress text size overlap start chunks start' chunks' :
  overlap < size → 0 ≤ start →
  loop_body text size overlap start chunks = Continue start' chunks' →
  start < start'.
Proof.
  intros Hov Hs. unfold loop_body.
  destruct (Z.eqb_spec (Z.min (len text) (start + size)) (len text));
    [done |].
  intros [= <- _]. lia.
Qed.

Lemma chunk_loop_terminates text size overlap fuel start chunks :
  overlap < size → 0 ≤ start →
  (Z.to_nat (len text - start) < fuel)%nat →
  is_Some (chunk_loop fuel text size overlap start chunks).
Proof.
  intros Hov. revert start chunks.
  induction fuel as [| fuel IH]; intros start chunks Hs Hfuel; [lia |].
  simpl. destruct (Z.ltb_spec start (len text)); [| by eexists].
  destruct (loop_body text size overlap start chunks)
    as [r | start' chunks'] eqn:Hbody; [by eexists |].
  apply loop_body_progress in Hbody as Hlt; [| done | done].
  apply IH; lia.
Qed.
(** The empty text gives no chunk, whatever the configuration. *)
Lemma chunk_text_empty (size overlap : Z) fuel :
  chunk_text (S fuel) (@nil char) size overlap = Some [].
Proof. reflexivity. Qed.

(** *** Valid configurations: [0 <= overlap < size] *)

(** What holds each time the guard of the loop is tested: [start] is a
    multiple of the stride, and the chunks made so far cover the text up
    to [start + overlap], which is still inside the text. *)
Definition loop_inv text (size overlap start : Z) chunks : Prop :=
  start = len chunks * (size - overlap) ∧
  (chunks = [] ∨
   (start + overlap < len text ∧
    reassemble overlap chunks =
      take (Z.to_nat (start + overlap)) text)).

(** What holds of the returned list. *)
Definition loop_post text (size overlap : Z) chunks : Prop :=
  reassemble overlap chunks = text ∧
  ((text = [] ∧ chunks = []) ∨
   (text ≠ [] ∧ 1 ≤ len chunks ∧
    len text ≤ (len chunks - 1) * (size - overlap) + size ∧
    (len chunks = 1 ∨
     (len chunks - 2) * (size - overlap) + size < len text))).

Lemma reassemble_snoc overlap chunks (chunk : list char) :
  chunks ≠ [] →
  reassemble overlap (chunks ++ [chunk]) =
    reassemble overlap chunks ++ drop (Z.to_nat overlap) chunk.
Proof.
  destruct chunks as [| c cs]; [done |]. intros _. simpl.
  rewrite map_app, concat_app. simpl. by rewrite app_nil_r, app_assoc.
Qed.

(** The chunk cut at [start], and what it adds to the text covered. *)
Lemma chunk_covers text (overlap start end_ : Z) :
  0 ≤ overlap → 0 ≤ start → start + overlap < end_ → end_ ≤ len text →
  take (Z.to_nat (start + overlap)) text ++
    drop (Z.to_nat overlap) (slice text start end_) =
  take (Z.to_nat end_) text.
Proof.
  intros Hov Hs Hlt Hle. rewrite slice_window by lia.
  rewrite <- (take_window text (Z.to_nat (start + overlap)) (Z.to_nat end_))
    by lia.
  f_equal. rewrite !take_drop_commute, drop_drop.
  f_equal; [lia |]. f_equal. lia.
Qed.

Lemma loop_body_valid text size overlap start chunks :
  0 ≤ overlap < size → start < len text →
  loop_inv text size overlap start chunks →
  match loop_body text size overlap start chunks with
  | Break chunks' => loop_post text size overlap chunks'
  | Continue start' chunks' => loop_inv text size overlap start' chunks'
  end.
Proof.
  intros Hov Hguard [Hstart Hcov].
  assert (0 ≤ start) as Hs0 by (pose proof (len_nonneg chunks); nia).
  unfold loop_body.
  set (end_ := Z.min (len text) (start + size)).
  assert (start < end_ ∧ end_ ≤ len text) as [Hend1 Hend2]
    by (subst end_; lia).
  assert (slice text start end_ ≠ []) as Hne.
  { intros Hnil. pose proof (len_slice_window text start end_) as Hl.
    rewrite Hnil in Hl. unfold len in Hl at 2. simpl in Hl. lia. }
  rewrite (truthy_true _ Hne).
  assert (reassemble overlap (chunks ++ [slice text start end_]) =
          take (Z.to_nat end_) text) as Hre.
  { destruct chunks as [| c cs].
    - simpl. rewrite app_nil_r.
      assert (start = 0) as -> by (unfold len in Hstart; simpl in Hstart; lia).
      rewrite slice_window by lia. simpl. rewrite drop_0. f_equal. lia.
    - destruct Hcov as [? | [? Hcov]]; [done |].
      rewrite reassemble_snoc, Hcov by done.
      apply chunk_covers; subst end_; lia. }
  assert (len (chunks ++ [slice text start end_]) = len chunks + 1) as Hlen.
  { rewrite len_app. done. }
  destruct (Z.eqb_spec end_ (len text)) as [Heq | Hneq].
  - split.
    + rewrite Hre, Heq. apply take_ge. unfold len. lia.
    + right. rewrite Hlen. split; [| split; [| split]].
      * intros ->. unfold len in Hguard. simpl in Hguard. lia.
      * pose proof (len_nonneg chunks). lia.
      * lia.
      * destruct Hcov as [-> | [Hc _]]; [by left | right]. lia.
  - split.
    + rewrite Hlen. lia.
    + right. replace (Z.max 0 (end_ - overlap) + overlap) with end_ by lia.
      split; [lia | done].
Qed.

Lemma chunk_loop_valid text size overlap fuel start chunks r :
  0 ≤ overlap < size →
  loop_inv text size overlap start chunks →
  chunk_loop fuel text size overlap start chunks = Some r →
  loop_post text size overlap r.
Proof.
  intros Hov. revert start chunks.
  induction fuel as [| fuel IH]; intros start chunks Hinv Hrun; [done |].
  simpl in Hrun. destruct (Z.ltb_spec start (len text)) as [Hlt | Hge].
  - pose proof (loop_body_valid text size overlap start chunks Hov Hlt Hinv)
      as Hbody.
    destruct (loop_body text size overlap start chunks)
      as [chunks' | start' chunks']; [by simplify_eq |].
    by eapply IH.
  - simplify_eq. destruct Hinv as [Hstart [-> | [? _]]]; [| lia].
    assert (text = []) as ->.
    { apply len_nil_inv. pose proof (len_nonneg text).
      unfold len in Hstart at 1. simpl in Hstart. lia. }
    split; [done | by left].
Qed.

(** With a valid configuration the call returns, with any fuel above
    [len(text)], a list that satisfies [loop_post]. *)
Lemma chunk_text_valid text size overlap fuel :
  0 ≤ overlap < size → (length text < fuel)%nat →
  ∃ chunks, chunk_text fuel text size overlap = Some chunks ∧
            loop_post text size overlap chunks.
Proof.
  intros Hov Hfuel.
  destruct (chunk_loop_terminates text size overlap fuel 0 [])
    as [chunks Hrun]; [lia | done | unfold len; lia |].
  exists chunks. split; [done |].
  eapply chunk_loop_valid; [done | | done].
  split; [done | by left].
Qed.

(** C2.  For [0 <= overlap < size] the call returns, and the chunks put
    back together (the first chunk whole, every later chunk without its
    first [overlap] characters) are the text again; the empty text gives
    the empty list of chunks. *)
Theorem chunk_text_roundtrip text size overlap fuel :
  0 ≤ overlap < size → (length text < fuel)%nat →
  ∃ chunks,
    chunk_text fuel text size overlap = Some chunks ∧
    reassemble overlap chunks = text ∧
    (text = [] → chunks = []).
Proof.
  intros Hov Hfuel.
  destruct (chunk_text_valid text size overlap fuel Hov Hfuel)
    as (chunks & Hrun & Hre & Hcount).
  exists chunks. split; [done |]. split; [done |].
  intros ->. by destruct Hcount as [[_ ->] | [? _]].
Qed.

(** C3 (as the code has it).  For a non-empty text and
    [0 <= overlap < size] the number of chunks is
    [max(1, ceil((len(text) - overlap) / (size - overlap)))]: the formula
    of the specification whenever the text is longer than the overlap
    (exact multiples included), and one chunk for a shorter text. *)
Theorem chunk_text_count text size overlap fuel :
  text ≠ [] → 0 ≤ overlap < size → (length text < fuel)%nat →
  ∃ chunks,
    chunk_text fuel text size overlap = Some chunks ∧
    len chunks = Z.max 1 (ceil_div (len text - overlap) (size - overlap)) ∧
    (overlap < len text →
     len chunks = ceil_div (len text - overlap) (size - overlap)) ∧
    (len text ≤ overlap → len chunks = 1).
Proof.
  intros Hne Hov Hfuel.
  destruct (chunk_text_valid text size overlap fuel Hov Hfuel)
    as (chunks & Hrun & _ & Hcount).
  exists chunks. split; [done |].
  destruct Hcount as [[? _] | (_ & Hn1 & Hup & Hlow)]; [done |].
  pose proof (ceil_div_bounds (len text - overlap) (size - overlap)
                ltac:(lia)) as Hc.
  set (c := ceil_div (len text - overlap) (size - overlap)) in *.
  set (n := len chunks) in *. set (d := size - overlap) in *.
  assert (c ≤ n) as Hcn by nia.
  assert (n = 1 ∨ n ≤ c) as Hnc by (destruct Hlow; [by left | right; nia]).
  assert (0 < len text) as Hpos.
  { destruct text; [done |]. unfold len. simpl. lia. }
  repeat split; [lia | | ].
  - intros Hlong. assert (1 ≤ c) by nia. lia.
  - intros Hshort. assert (c ≤ 1) by nia. lia.
Qed.

(** C4 (as the code has it).  Whenever [overlap < size], whatever the
    signs, every pass of the loop that continues moves [start] forward and
    the call returns within [len(text)] passes.  Nothing rejects or clamps
    a configuration with [overlap >= size]. *)
Theorem chunk_text_terminates text size overlap :
  overlap < size →
  (∃ chunks, chunk_text (S (length text)) text size overlap = Some chunks) ∧
  (∀ start chunks start' chunks',
     0 ≤ start →
     loop_body text size overlap start chunks = Continue start' chunks' →
     start < start').
Proof.
  intros Hov. split.
  - destruct (chunk_loop_terminates text size overlap (S (length text)) 0 [])
      as [chunks Hrun]; [done | done | unfold len; lia |].
    by exists chunks.
  - intros start chunks start' chunks' Hs Hbody.
    by eapply loop_body_progress.
Qed.

End Chunking.

End ChunkerFacts.

Module ChunkerExamples.
Import Py Chunker ChunkerFacts.

Definition text_of (x : string) : list ascii := list_ascii_of_string x.

Example chunk_text_windows :
  chunk_text 11 (text_of "abcdefghij") 4 1
  = Some [text_of "abcd"; text_of "defg"; text_of "ghij"].
Proof. reflexivity. Qed.

Example chunk_text_exact_multiple :
  chunk_text 11 (text_of "abcdefg") 4 1
  = Some [text_of "abcd"; text_of "defg"] ∧
  ceil_div (7 - 1) (4 - 1) = 2.
Proof. split; reflexivity. Qed.

Example chunk_text_short :
  chunk_text 3 (text_of "ab") 800 150 = Some [text_of "ab"].
Proof. reflexivity. Qed.

Lemma chunk_text_roundtrip_witness :
  0 ≤ 1 < 4 ∧
  ∃ chunks,
    chunk_text 11 (text_of "abcdefghij") 4 1 = Some chunks ∧
    reassemble 1 chunks = text_of "abcdefghij" ∧
    (text_of "abcdefghij" = [] → chunks = []).
Proof.
  split; [lia |].
  apply (chunk_text_roundtrip (text_of "abcdefghij") 4 1 11);
    [lia | simpl; lia].
Defined.

(** C3 as the specification words it fails for a text no longer than the
    overlap: ["a"] with [size = 2], [overlap = 1] gives one chunk, the
    formula gives [ceil(0 / 1) = 0]. *)
Lemma chunk_count_formula_fails :
  text_of "a" ≠ [] ∧ 0 ≤ 1 < 2 ∧
  chunk_text_returns (text_of "a") 2 1 [text_of "a"] ∧
  len [text_of "a"] ≠ ceil_div (len (text_of "a") - 1) (2 - 1).
Proof.
  split; [done |]. split; [lia |]. split; [by exists 1%nat |].
  vm_compute. done.
Qed.

Lemma chunk_text_count_witness :
  text_of "abcdefg" ≠ [] ∧ 0 ≤ 1 < 4 ∧
  ∃ chunks,
    chunk_text 8 (text_of "abcdefg") 4 1 = Some chunks ∧
    len chunks = Z.max 1 (ceil_div (len (text_of "abcdefg") - 1) (4 - 1)) ∧
    (1 < len (text_of "abcdefg") →
     len chunks = ceil_div (len (text_of "abcdefg") - 1) (4 - 1)) ∧
    (len (text_of "abcdefg") ≤ 1 → len chunks = 1).
Proof.
  split; [done |]. split; [lia |].
  apply (chunk_text_count (text_of "abcdefg") 4 1 8);
    [done | lia | simpl; lia].
Defined.

(** C4 as the specification words it fails: with [size = overlap = 1] and
    a text of two characters the loop cuts ["a"] for ever; no amount of
    fuel lets the call return. *)
Lemma chunk_loop_stuck fuel chunks :
  chunk_loop fuel (text_of "ab") 1 1 0 chunks = None.
Proof.
  revert chunks. induction fuel as [| fuel IH]; intros chunks; [done |].
  simpl. apply IH.
Qed.

Lemma chunk_text_diverges :
  ¬ ∃ chunks, chunk_text_returns (text_of "ab") 1 1 chunks.
Proof.
  intros (chunks & fuel & Hrun). unfold chunk_text in Hrun.
  by rewrite chunk_loop_stuck in Hrun.
Qed.

Lemma chunk_text_terminates_witness :
  (-5) < (-3) ∧
  (∃ chunks,
     chunk_text 11 (text_of "abcdefghij") (-3) (-5) = Some chunks) ∧
  (∀ start chunks start' chunks',
     0 ≤ start →
     loop_body (text_of "abcdefghij") (-3) (-5) start chunks
       = Continue start' chunks' →
     start < start').
Proof.
  split; [lia |].
  apply (chunk_text_terminates (text_of "abcdefghij") (-3) (-5)). lia.
Defined.

End ChunkerExamples.

(** ** The source manifest *)

Module ManifestFacts.
Import Py Manifest.

Local Open Scope string_scope.

(** The classes of the exceptions that [load] raises itself, once the
    file has been opened and parsed. *)
Definition load_error_classes : list string :=
  [ "AttributeError"; "TypeError"; "KeyError" ].

Lemma bind_raised {A B} (c : outcome exn A) (k : A → outcome exn B) e :
  bind c k = Raised e →
  c = Raised e ∨ ∃ a, c = Returned a ∧ k a = Raised e.
Proof. destruct c as [a | e']; simpl; [eauto | intros [= ->]; by left]. Qed.

Lemma subscript_raised item key e :
  subscript item key = Raised e →
  exn_class e ∈ load_error_classes ∧
  (is_object item → e = KeyError key ∧ ¬ has_field item key).
Proof.
  unfold load_error_classes.
  destruct item as [| | | | | members]; simpl; try (intros [= <-]; simpl;
    split; [set_solver | done]).
  destruct (dict_lookup key members) eqn:Hkey; [done |].
  intros [= <-]. simpl. split; [set_solver |].
  intros _. split; [done |]. by intros [? ?].
Qed.

Lemma get_raised item key fallback e :
  get item key fallback = Raised e →
  exn_class e ∈ load_error_classes ∧ ¬ is_object item.
Proof.
  unfold load_error_classes.
  destruct item; simpl; try done; intros [= <-]; simpl;
    (split; [set_solver | tauto]).
Qed.

(** An entry that is an object fails on the first required field it
    lacks, with a [KeyError] for that field, and on nothing else. *)
Lemma make_entry_raised item e :
  make_entry item = Raised e →
  exn_class e ∈ load_error_classes ∧
  (is_object item →
   ∃ key, key ∈ required_fields ∧ e = KeyError key ∧ ¬ has_field item key).
Proof.
  unfold make_entry, required_fields. intros Hraise.
  repeat (apply bind_raised in Hraise as [Hraise | (? & _ & Hraise)];
          [first
             [ apply subscript_raised in Hraise as [? Hkey];
               split; [done |]; intros Hobj;
               destruct (Hkey Hobj) as [-> ?]; eexists; split; [| done];
               set_solver
             | apply get_raised in Hraise as [? ?]; split; [done | tauto] ]
          |]).
  done.
Qed.

Lemma make_entry_returned item entry :
  make_entry item = Returned entry →
  Forall (has_field item) required_fields.
Proof.
  unfold make_entry, required_fields. destruct item as [| | | | | members];
    try done.
  simpl.
  destruct (dict_lookup "id" members) eqn:?; [| done]. simpl.
  destruct (dict_lookup "title" members) eqn:?; [| done]. simpl.
  destruct (dict_lookup "type" members) eqn:?; [| done]. simpl.
  destruct (dict_lookup "path" members) eqn:?; [| done]. simpl.
  intros _. repeat constructor; simpl; by eexists.
Qed.

Lemma make_entries_raised items entries e :
  make_entries items entries = Raised e →
  exn_class e ∈ load_error_classes ∧
  (Forall is_object items →
   ∃ item key,
     item ∈ items ∧ key ∈ required_fields ∧ e = KeyError key ∧
     ¬ has_field item key).
Proof.
  revert entries. induction items as [| item items IH]; intros entries;
    [done |].
  simpl. intros Hraise.
  apply bind_raised in Hraise as [Hraise | (entry & _ & Hraise)].
  - apply make_entry_raised in Hraise as [Hclass Hkey].
    split; [done |]. intros Hobj. apply Forall_cons in Hobj as [Hobj _].
    destruct (Hkey Hobj) as (key & ? & ? & ?).
    exists item, key. split; [by left | done].
  - apply IH in Hraise as [Hclass Hkey]. split; [done |].
    intros Hobj. apply Forall_cons in Hobj as [_ Hobj].
    destruct (Hkey Hobj) as (item' & key & ? & ?).
    exists item', key. split; [by right | done].
Qed.

Lemma make_entries_returned items entries result :
  make_entries items entries = Returned result →
  Forall (λ item, Forall (has_field item) required_fields) items ∧
  length result = (length entries + length items)%nat.
Proof.
  revert entries. induction items as [| item items IH]; intros entries.
  - simpl. intros [= <-]. split; [done | lia].
  - simpl. destruct (make_entry item) as [entry |] eqn:Hentry; [| done].
    simpl. intros Hrest. apply IH in Hrest as [Hall Hlen].
    split.
    + constructor; [by eapply make_entry_returned | done].
    + rewrite Hlen, length_app. simpl. lia.
Qed.

Lemma make_entry_complete item :
  Forall (has_field item) required_fields →
  ∃ entry, make_entry item = Returned entry.
Proof.
  unfold required_fields. rewrite !Forall_cons.
  intros (Hid & Htitle & Htype & Hpath & _).
  destruct item as [| | | | | members]; try done.
  destruct Hid as [? Hid], Htitle as [? Htitle], Htype as [? Htype],
    Hpath as [? Hpath].
  unfold make_entry. simpl. rewrite Hid, Htitle, Htype, Hpath. simpl.
  by eexists.
Qed.

Lemma make_entry_without_id item :
  is_object item → ¬ has_field item "id" →
  make_entry item = Raised (KeyError "id").
Proof.
  destruct item as [| | | | | members]; try done. intros _ Hno.
  unfold make_entry. simpl in *.
  destruct (dict_lookup "id" members); [| done].
  destruct Hno. by eexists.
Qed.

(** Complete entries are passed over; the first entry without [id] stops
    the loop. *)
Lemma make_entries_stop_at_missing_id before item after entries :
  Forall (λ item', Forall (has_field item') required_fields) before →
  is_object item → ¬ has_field item "id" →
  make_entries (before ++ item :: after) entries = Raised (KeyError "id").
Proof.
  intros Hbefore Hobj Hno. revert entries.
  induction Hbefore as [| item' before Hitem' _ IH]; intros entries; simpl.
  - by rewrite make_entry_without_id.
  - destruct (make_entry_complete item' Hitem') as [entry ->]. simpl.
    apply IH.
Qed.

(** C9 (as the code has it).  [load] never turns an exception into a
    [ManifestError]: the code defines no such class and catches nothing.
    What [open] and [json.load] raise reaches the caller as it is:
    [FileNotFoundError] for a missing file, [UnicodeDecodeError] for a
    file that is not UTF-8, [JSONDecodeError] for text that is not JSON,
    and whatever else the two calls raise.  What [load] raises itself is
    an [AttributeError], a [TypeError] or a [KeyError]: [AttributeError]
    for JSON that is not an object and, for a manifest that is an object
    with a list of objects under ["sources"], a [KeyError] exactly when
    some entry lacks [id], [title], [type] or [path]; otherwise it
    returns one entry for each listed source.  An entry without [id],
    after entries that are complete, gives [KeyError("id")], and with it
    no manifest at all. *)
Theorem load_raises (d : disk) (path : option string) :
  let file := file_at d (manifest_path d path) in
  (∀ e, open_and_parse file = Raised e → load d path = Raised e) ∧
  (file = NoSuchFile → load d path = Raised FileNotFoundError) ∧
  (file = NotUtf8 → load d path = Raised UnicodeDecodeError) ∧
  (file = NotJson → load d path = Raised JSONDecodeError) ∧
  (∀ e, load d path = Raised e →
     open_and_parse file = Raised e ∨
     ∃ data, file = Json data ∧ exn_class e ∈ load_error_classes) ∧
  (∀ e, load d path = Raised e → exn_class e = "ManifestError" →
     file = Fails e) ∧
  (∀ data, file = Json data → ¬ is_object data →
     load d path = Raised (AttributeError "get")) ∧
  (∀ data items,
     file = Json data → well_shaped data items →
     ((∃ e, load d path = Raised e) ↔
      ∃ item key,
        item ∈ items ∧ key ∈ required_fields ∧ ¬ has_field item key) ∧
     (∀ e, load d path = Raised e →
        ∃ item key,
          item ∈ items ∧ key ∈ required_fields ∧ e = KeyError key ∧
          ¬ has_field item key) ∧
     (∀ manifest, load d path = Returned manifest →
        length (sources manifest) = length items)) ∧
  (∀ data before item after,
     file = Json data → well_shaped data (before ++ item :: after) →
     Forall (λ item', Forall (has_field item') required_fields) before →
     ¬ has_field item "id" →
     load d path = Raised (KeyError "id")).
Proof.
  intros file.
  assert (∀ e, load d path = Raised e →
            open_and_parse file = Raised e ∨
            ∃ data, file = Json data ∧ exn_class e ∈ load_error_classes)
    as Hclasses.
  { intros e. unfold load. fold file. intros Hraise.
    apply bind_raised in Hraise as [Hraise | (data & Hdata & Hraise)];
      [by left |].
    right. exists data. split; [by destruct file; simplify_eq/= |].
    apply bind_raised in Hraise as [Hraise | (listed & _ & Hraise)].
    { by apply get_raised in Hraise as [? _]. }
    apply bind_raised in Hraise as [Hraise | (items & _ & Hraise)].
    { unfold load_error_classes. destruct listed; simplify_eq/=; set_solver. }
    apply bind_raised in Hraise as [Hraise | (? & _ & ?)]; [| done].
    by apply make_entries_raised in Hraise as [? _]. }
  split; [| split; [| split; [| split; [| split; [| split;
    [| split; [| split]]]]]]].
  - intros e Hfile. unfold load. fold file. by rewrite Hfile.
  - unfold load. fold file. by intros ->.
  - unfold load. fold file. by intros ->.
  - unfold load. fold file. by intros ->.
  - exact Hclasses.
  - intros e Hraise Hclass.
    destruct (Hclasses e Hraise) as [Hfile | (data & _ & Hown)].
    + destruct file; simplify_eq/=; done.
    + unfold load_error_classes in Hown. rewrite Hclass in Hown. set_solver.
  - unfold load. fold file. intros data -> Hshape. by destruct data.
  - intros data items Hfile (Hobj & Hlisted & Hitems).
    assert (load d path =
            bind (make_entries items [])
                 (λ entries, Returned {| sources := entries |})) as Hload.
    { unfold load. fold file. rewrite Hfile. simpl. by rewrite Hlisted. }
    rewrite Hload.
    destruct (make_entries items []) as [entries | e] eqn:Hentries; simpl.
    + apply make_entries_returned in Hentries as [Hall Hlen].
      split; [| split; [done |]].
      * split; [by intros [? ?] |]. intros (item & key & Hitem & Hkey & Hno).
        rewrite Forall_forall in Hall. specialize (Hall item Hitem).
        rewrite Forall_forall in Hall. by specialize (Hall key Hkey).
      * by intros manifest [= <-].
    + apply make_entries_raised in Hentries as [_ Hkey].
      destruct (Hkey Hitems) as (item & key & ? & ? & -> & ?).
      split; [| split; [| done]].
      * split; [| by eauto]. intros _. by exists item, key.
      * intros e' [= <-]. by exists item, key.
  - intros data before item after Hfile (Hobj & Hlisted & Hitems) Hbefore Hno.
    unfold load. fold file. rewrite Hfile. simpl. rewrite Hlisted. simpl.
    rewrite make_entries_stop_at_missing_id; [done | done | | done].
    apply Forall_app in Hitems as [_ Hitems].
    by apply Forall_cons in Hitems as [? _].
Qed.

End ManifestFacts.

(** ** Text extraction *)

Module ExtractionFacts.
Import Py Manifest Extraction.

Local Open Scope string_scope.

Section Extract.
Context (lower : string → string).

(** [branch_of] names the branch that [_read_text] takes. *)
Lemma _read_text_by_branch w abs_path :
  match branch_of lower w abs_path with
  | Html =>
      ∃ get_text,
        BeautifulSoup w = Some get_text ∧
        _read_text lower w abs_path = bind (read_text w abs_path) get_text
  | Pdf =>
      ∃ pages_of,
        pypdf w = Some pages_of ∧
        _read_text lower w abs_path =
          bind (pages_of abs_path) (λ pages,
          Returned (join_lines (map page_text pages)))
  | Docx =>
      ∃ paragraphs_of,
        docx w = Some paragraphs_of ∧
        _read_text lower w abs_path =
          bind (paragraphs_of abs_path) (λ paragraphs,
          Returned (join_lines paragraphs))
  | Raw => _read_text lower w abs_path = raw_read w abs_path
  end.
Proof.
  unfold branch_of, _read_text, and_parser.
  destruct (bool_decide (_ ∈ [ ".html"; ".htm" ]));
    destruct (BeautifulSoup w) as [get_text |]; simpl;
    rewrite ?bool_decide_eq_true_2, ?bool_decide_eq_false_2
      by (by eexists || by intros [? ?]); simpl; try by eexists.
  all: destruct (bool_decide (_ ∈ [ ".pdf" ]));
    destruct (pypdf w) as [pages_of |]; simpl;
    rewrite ?bool_decide_eq_true_2, ?bool_decide_eq_false_2
      by (by eexists || by intros [? ?]); simpl; try by eexists.
  all: destruct (bool_decide (_ ∈ [ ".docx" ]));
    destruct (docx w) as [paragraphs_of |]; simpl;
    rewrite ?bool_decide_eq_true_2, ?bool_decide_eq_false_2
      by (by eexists || by intros [? ?]); simpl; try by eexists; done.
Qed.

(** A path that takes the last branch is read inside the [try]. *)
Lemma _read_text_raw w abs_path :
  branch_of lower w abs_path = Raw →
  _read_text lower w abs_path = raw_read w abs_path.
Proof.
  intros Hraw. pose proof (_read_text_by_branch w abs_path) as Hbranch.
  by rewrite Hraw in Hbranch.
Qed.

(** The raw read gives the text of the file when the file can be read,
    and the empty string when it cannot. *)
Lemma raw_read_returns w abs_path :
  (∀ text, read_text w abs_path = Returned text →
     raw_read w abs_path = Returned text) ∧
  (∀ e, read_text w abs_path = Raised e → raw_read w abs_path = Returned "").
Proof.
  unfold raw_read. split.
  - by intros text ->.
  - by intros e ->.
Qed.

(** C8 (as the code has it).  For a source whose path cannot be resolved
    extraction returns the empty string.  For a file that takes the raw
    branch -- its extension is none of .html, .htm, .pdf, .docx, or the
    parser for it was not importable -- extraction never raises: it
    returns the text read from the file, whatever that text is, and the
    empty string when the read fails.  (A resolved path is a path that
    exists, so it is not empty; [if not abs_path] gives the empty string
    for an empty one.) *)
Theorem read_text_from_source_raw w root_dir source rel_path :
  path source = JString rel_path →
  (_resolve_source_path w root_dir rel_path = None →
   read_text_from_source lower w root_dir source = Returned "") ∧
  (∀ abs_path,
     _resolve_source_path w root_dir rel_path = Some abs_path →
     branch_of lower w abs_path = Raw →
     (∃ text, read_text_from_source lower w root_dir source = Returned text) ∧
     (∀ text,
        abs_path ≠ "" → read_text w abs_path = Returned text →
        read_text_from_source lower w root_dir source = Returned text) ∧
     (∀ e,
        read_text w abs_path = Raised e →
        read_text_from_source lower w root_dir source = Returned "") ∧
     (abs_path = "" →
      read_text_from_source lower w root_dir source = Returned "")).
Proof.
  intros Hpath. unfold read_text_from_source. rewrite Hpath. split.
  - by intros ->.
  - intros abs_path -> Hraw.
    destruct (String.eqb_spec abs_path "") as [Hempty | Hfull].
    + repeat split; try done. by exists "".
    + rewrite _read_text_raw by done.
      destruct (raw_read_returns w abs_path) as [Hread Hfail].
      repeat split; try done.
      * destruct (read_text w abs_path) as [text | e] eqn:Htext.
        -- exists text. by apply Hread.
        -- exists "". by eapply Hfail.
      * intros text _. apply Hread.
Qed.
End Extract.

End ExtractionFacts.

(** ** Filtering and re-ranking *)

Module RetrievalFacts.
Import Py PyFacts Retrieval.

Local Open Scope string_scope.

Section Filters.
Context (lower : string → string).
Implicit Types (candidates : list candidate) (c : candidate).

Lemma given_nonempty {A} (arg : option (list A)) l :
  given arg = Some l → arg = Some l ∧ l ≠ [].
Proof. destruct arg as [[| ? ?] |]; naive_solver. Qed.

(** A filter that would keep nothing is dropped. *)
Lemma fallback_nonempty candidates (filtered : list candidate) :
  candidates ≠ [] → (if truthy filtered then filtered else candidates) ≠ [].
Proof. by destruct filtered. Qed.

Lemma filter_by_scopes_nonempty filter_scopes candidates :
  candidates ≠ [] → filter_by_scopes lower filter_scopes candidates ≠ [].
Proof.
  intros Hne. unfold filter_by_scopes.
  destruct (given filter_scopes); [| done]. by apply fallback_nonempty.
Qed.

Lemma filter_by_source_ids_nonempty filter_source_ids candidates :
  candidates ≠ [] → filter_by_source_ids filter_source_ids candidates ≠ [].
Proof.
  intros Hne. unfold filter_by_source_ids.
  destruct (given filter_source_ids); [| done]. by apply fallback_nonempty.
Qed.

(** What the scope test keeps: the candidates whose scope metadata, in
    lower case, has some requested scope, in lower case, as a substring. *)
Lemma scope_matches_occurs scopes c :
  scope_matches lower (map lower scopes) c = true ↔
  ∃ scope pre post,
    scope ∈ scopes ∧
    lower (default "" (c.2 !! "scope")) = pre +:+ lower scope +:+ post.
Proof.
  unfold scope_matches. rewrite existsb_exists. split.
  - intros (s & Hin & Hsub). apply in_map_iff in Hin as (scope & <- & Hin).
    apply contains_occurs in Hsub as (pre & post & Hsub).
    exists scope, pre, post. by rewrite list_elem_of_In.
  - intros (scope & pre & post & Hin & Hsub).
    exists (lower scope). split.
    + apply in_map. by rewrite <- list_elem_of_In.
    + apply contains_occurs. by exists pre, post.
Qed.

Lemma source_id_matches_allowed ids c :
  source_id_matches (list_to_set ids) c = true ↔
  ∃ source_id, c.2 !! "source_id" = Some source_id ∧ source_id ∈ ids.
Proof.
  unfold source_id_matches. destruct (c.2 !! "source_id") as [sid |].
  - rewrite bool_decide_eq_true, elem_of_list_to_set. naive_solver.
  - naive_solver.
Qed.

(** With no filter asked for, or an empty one, a stage does nothing; an
    empty list of requests keeps no candidate, so both readings agree. *)
Lemma filter_by_scopes_stage filter_scopes candidates :
  filter_by_scopes lower filter_scopes candidates =
    match filter_scopes with
    | Some scopes =>
        match List.filter (scope_matches lower (map lower scopes)) candidates
        with
        | [] => candidates
        | kept => kept
        end
    | None => candidates
    end.
Proof.
  unfold filter_by_scopes. destruct filter_scopes as [[| scope scopes] |];
    simpl; [| | done].
  - assert (List.filter (scope_matches lower []) candidates = []) as ->;
      [| done].
    by induction candidates.
  - by destruct (List.filter _ candidates).
Qed.

Lemma filter_by_source_ids_stage filter_source_ids candidates :
  filter_by_source_ids filter_source_ids candidates =
    match filter_source_ids with
    | Some ids =>
        match List.filter (source_id_matches (list_to_set ids)) candidates
        with
        | [] => candidates
        | kept => kept
        end
    | None => candidates
    end.
Proof.
  unfold filter_by_source_ids.
  destruct filter_source_ids as [[| id ids] |]; simpl; [| | done].
  - assert (List.filter (source_id_matches ∅) candidates = []) as ->;
      [| done].
    induction candidates as [| c candidates IH]; [done |]. simpl.
    unfold source_id_matches at 1.
    destruct (c.2 !! "source_id"); [| done].
    by rewrite bool_decide_eq_false_2 by set_solver.
  - by destruct (List.filter _ candidates).
Qed.

(** C1.  The scope filter and then the source-id filter never empty a
    non-empty candidate list: each stage keeps the candidates that pass
    its test, and when none does it hands on the list it was given. *)
Theorem filters_never_empty filter_scopes filter_source_ids candidates :
  candidates ≠ [] →
  let after_scopes := filter_by_scopes lower filter_scopes candidates in
  let after_ids := filter_by_source_ids filter_source_ids after_scopes in
  after_scopes ≠ [] ∧ after_ids ≠ [] ∧
  (filter_scopes = None → after_scopes = candidates) ∧
  (filter_source_ids = None → after_ids = after_scopes) ∧
  (∀ scopes, filter_scopes = Some scopes →
     let kept :=
       List.filter (scope_matches lower (map lower scopes)) candidates in
     (kept = [] → after_scopes = candidates) ∧
     (kept ≠ [] → after_scopes = kept) ∧
     (∀ c, c ∈ kept ↔
        c ∈ candidates ∧
        ∃ scope pre post,
          scope ∈ scopes ∧
          lower (default "" (c.2 !! "scope"))
            = pre +:+ lower scope +:+ post)) ∧
  (∀ ids, filter_source_ids = Some ids →
     let kept :=
       List.filter (source_id_matches (list_to_set ids)) after_scopes in
     (kept = [] → after_ids = after_scopes) ∧
     (kept ≠ [] → after_ids = kept) ∧
     (∀ c, c ∈ kept ↔
        c ∈ after_scopes ∧
        ∃ source_id,
          c.2 !! "source_id" = Some source_id ∧ source_id ∈ ids)).
Proof.
  intros Hne after_scopes after_ids.
  assert (after_scopes ≠ []) as Hne'
    by by apply filter_by_scopes_nonempty.
  split; [done |]. split; [by apply filter_by_source_ids_nonempty |].
  split; [by intros -> |]. split; [subst after_ids; by intros -> |].
  split.
  - intros scopes -> kept. subst after_scopes.
    rewrite filter_by_scopes_stage. fold kept.
    split; [by intros -> |]. split; [by destruct kept |].
    intros c. subst kept.
    by rewrite list_elem_of_In, filter_In, <- list_elem_of_In,
      scope_matches_occurs.
  - intros ids -> kept. subst after_ids.
    rewrite filter_by_source_ids_stage. fold kept.
    split; [by intros -> |]. split; [by destruct kept |].
    intros c. subst kept.
    by rewrite list_elem_of_In, filter_In, <- list_elem_of_In,
      source_id_matches_allowed.
Qed.
End Filters.

Section Rerank.
Context {score : Type} (score_lt : score → score → bool).
Implicit Types (candidates : list candidate) (b : backends (score := score)).

(** The contract of [predict]: one score for each pair it is given. *)
Definition scores_every_pair b : Prop :=
  ∀ load name (model : reranker) pairs scores,
    CrossEncoder b = Some load →
    load name = Returned model →
    model pairs = Returned scores →
    length scores = length pairs.

(** The scored pairs, as [sorted] leaves them. *)
Definition ranking candidates (scores : list score)
    : list (candidate * score) :=
  sorted score_lt snd true (zip candidates scores).

Lemma rank_returns load query_text candidates ranked :
  rank score_lt load query_text candidates = Returned ranked →
  ∃ model scores,
    load "cross-encoder/ms-marco-MiniLM-L-6-v2" = Returned model ∧
    model (map (λ c : candidate, (query_text, c.1)) candidates)
      = Returned scores ∧
    ranked = map fst (ranking candidates scores).
Proof.
  unfold rank. destruct (load _) as [model |]; [| done]. simpl.
  destruct (model _) as [scores |] eqn:Hscores; [| done]. simpl.
  intros [= <-]. by exists model, scores.
Qed.

Lemma ranking_candidates candidates scores :
  length scores = length candidates →
  map fst (ranking candidates scores) ≡ₚ candidates.
Proof.
  intros Hlen. unfold ranking. rewrite sorted_perm.
  change (map fst (zip candidates scores)) with ((zip candidates scores).*1).
  rewrite fst_zip; [done | lia].
Qed.

(** C7.  Re-ranking returns a permutation of the candidates.  When the
    scores arrive, the candidates come back in descending order of score,
    equal scores in their earlier order; when re-ranking is switched off,
    the cross-encoder is missing, or loading or scoring raises, the list
    comes back as it was. *)
Theorem rerank_permutation b use_reranker query_text candidates :
  strict_weak_order score_lt → scores_every_pair b →
  rerank score_lt b use_reranker query_text candidates ≡ₚ candidates ∧
  (use_reranker = false →
   rerank score_lt b use_reranker query_text candidates = candidates) ∧
  (CrossEncoder b = None →
   rerank score_lt b use_reranker query_text candidates = candidates) ∧
  (∀ load e,
     CrossEncoder b = Some load →
     rank score_lt load query_text candidates = Raised e →
     rerank score_lt b use_reranker query_text candidates = candidates) ∧
  (∀ load model scores,
     use_reranker = true →
     CrossEncoder b = Some load →
     load "cross-encoder/ms-marco-MiniLM-L-6-v2" = Returned model →
     model (map (λ c : candidate, (query_text, c.1)) candidates)
       = Returned scores →
     let ranked := ranking candidates scores in
     rerank score_lt b use_reranker query_text candidates = map fst ranked ∧
     ranked ≡ₚ zip candidates scores ∧
     descending score_lt snd ranked ∧
     ∀ k, keyed score_lt snd k ranked
          = keyed score_lt snd k (zip candidates scores)).
Proof.
  intros Hlt Hscores. unfold rerank.
  split; [| split; [| split; [| split]]].
  - destruct (CrossEncoder b) as [load |] eqn:Hload; [| done].
    destruct (use_reranker && truthy candidates); [| done].
    destruct (rank _ _ _ _) as [ranked |] eqn:Hrank; [| done].
    apply rank_returns in Hrank as (model & scores & Hmodel & Hpredict & ->).
    apply ranking_candidates.
    rewrite (Hscores _ _ _ _ _ Hload Hmodel Hpredict). apply length_map.
  - intros ->. by destruct (CrossEncoder b).
  - by intros ->.
  - intros load e -> ->. by destruct (_ && _).
  - intros load model scores -> -> Hmodel Hpredict. simpl.
    split; [| split].
    + destruct candidates as [| c candidates]; [done |].
      simpl truthy. cbv iota.
      unfold rank. rewrite Hmodel. cbn [bind]. by rewrite Hpredict.
    + apply sorted_perm.
    + by apply sorted_reverse_stable.
Qed.
(** The stages as [query_improved] chains them: retrieve, filter by
    scope, filter by source id, re-rank, cut to [top_k]. *)
Lemma query_improved_stages (lower : string → string) b query_text
    top_k pre_k collection_name filter_scopes filter_source_ids use_reranker
    get_collection (query : collection) pre :
  chromadb b = Some get_collection →
  get_collection collection_name = Returned query →
  query query_text (Z.max pre_k top_k) = Returned pre →
  let retrieved :=
    zip_with (λ d m, (d, default ∅ m)) (documents pre) (metadatas pre) in
  query_improved lower score_lt b query_text top_k pre_k collection_name
    filter_scopes filter_source_ids use_reranker
  = Returned
      (map passage
         (slice_to
            (rerank score_lt b use_reranker query_text
               (filter_by_source_ids filter_source_ids
                  (filter_by_scopes lower filter_scopes retrieved)))
            top_k)).
Proof.
  intros Hdb Hcollection Hquery. unfold query_improved.
  rewrite Hdb, Hcollection. cbn [bind]. by rewrite Hquery.
Qed.
End Rerank.

End RetrievalFacts.

(** ** The checklist engine *)

Module ChecklistFacts.
Import Checklists.

Local Open Scope string_scope.

#[global] Instance requirement_met_dec uploaded req :
  Decision (requirement_met uploaded req).
Proof.
  unfold requirement_met. destruct (SYNONYMS !! req) as [parts |].
  - apply (set_Forall_dec (λ part, part ∈ uploaded) parts).
  - apply _.
Defined.

Lemma subseteq_uploaded_set (parts : gset string) (uploaded : list string) :
  parts ⊆ list_to_set (C := gset string) uploaded ↔
  ∀ part, part ∈ parts → part ∈ uploaded.
Proof. set_solver. Qed.

(** One pass of the loop files the requirement under [present] exactly
    when it is met; the branch on "Board Resolution" changes nothing. *)
Lemma classify_met uploaded t req :
  classify (list_to_set uploaded) t req =
    if decide (requirement_met uploaded req) then append_present t req
    else append_missing t req.
Proof.
  unfold classify.
  destruct (decide (requirement_met uploaded req)) as [Hmet | Hmet];
    unfold requirement_met in Hmet;
    destruct (SYNONYMS !! req) as [parts |].
  - by rewrite bool_decide_eq_true_2 by by apply subseteq_uploaded_set.
  - by rewrite bool_decide_eq_true_2 by set_solver.
  - by rewrite bool_decide_eq_false_2 by by rewrite subseteq_uploaded_set.
  - rewrite bool_decide_eq_false_2 by set_solver.
    by destruct (_ && _).
Qed.

Lemma fold_classify uploaded required t :
  fold_left (classify (list_to_set uploaded)) required t =
    Tally (present t ++ filter (requirement_met uploaded) required)
          (missing t ++
             filter (λ req, ¬ requirement_met uploaded req) required).
Proof.
  revert t. induction required as [| req required IH]; intros t.
  - simpl. rewrite !app_nil_r. by destruct t.
  - simpl. rewrite IH, classify_met, !filter_cons.
    destruct (decide (requirement_met uploaded req)) as [Hmet | Hmet].
    + rewrite decide_False by tauto. simpl. by rewrite <- app_assoc.
    + rewrite decide_True by done. simpl. by rewrite <- app_assoc.
Qed.

(** C5.  [compute_missing_docs] walks the required list of the process in
    order; a composite requirement is present when all its constituents
    are among the uploaded labels, any other requirement when the label
    itself is, and everything else is missing.  Both lists keep the order
    of the required list, only the set of uploaded labels matters, and the
    incorporation example of the specification lacks exactly
    "Register of Members and Directors". *)
Theorem compute_missing_docs_spec :
  (∀ process uploaded,
     let required := default [] (REQUIRED_DOCS_BY_PROCESS !! process) in
     compute_missing_docs process uploaded =
       (filter (requirement_met uploaded) required,
        filter (λ req, ¬ requirement_met uploaded req) required)) ∧
  (∀ uploaded req,
     requirement_met uploaded req ↔
       match SYNONYMS !! req with
       | Some parts => ∀ part, part ∈ parts → part ∈ uploaded
       | None => req ∈ uploaded
       end) ∧
  (∀ process uploaded uploaded',
     (∀ label, label ∈ uploaded ↔ label ∈ uploaded') →
     compute_missing_docs process uploaded =
       compute_missing_docs process uploaded') ∧
  compute_missing_docs "Company Incorporation (Private Company)"
    [ "Articles of Association"; "Board Resolution";
      "Incorporation Application Form"; "UBO Declaration Form";
      "Register of Members" ]
  = ([ "Articles of Association"; "Board Resolution";
       "Incorporation Application Form"; "UBO Declaration Form" ],
     [ "Register of Members and Directors" ]).
Proof.
  split; [| split; [| split]].
  - intros process uploaded required. unfold compute_missing_docs.
    fold required. by rewrite fold_classify.
  - done.
  - intros process uploaded uploaded' Hsame. unfold compute_missing_docs.
    replace (list_to_set (C := gset string) uploaded')
      with (list_to_set (C := gset string) uploaded); [done |].
    apply set_eq. intros label. rewrite !elem_of_list_to_set. apply Hsame.
  - by vm_compute.
Qed.

(** C10.  A process that is no key of the table has an empty required
    list, so both lists come back empty. *)
Theorem compute_missing_docs_unknown_process process uploaded :
  REQUIRED_DOCS_BY_PROCESS !! process = None →
  compute_missing_docs process uploaded = ([], []).
Proof.
  intros Hnone. unfold compute_missing_docs. by rewrite Hnone.
Qed.

Lemma compute_missing_docs_unknown_process_witness :
  REQUIRED_DOCS_BY_PROCESS !! "Unknown" = None ∧
  compute_missing_docs "Unknown" [ "Employment Contract" ] = ([], []).
Proof.
  split; [by vm_compute |].
  apply (compute_missing_docs_unknown_process "Unknown"
           [ "Employment Contract" ]).
  by vm_compute.
Defined.

End ChecklistFacts.

Module InferenceFacts.
Import Inference.

Local Open Scope string_scope.
Local Open Scope Z_scope.

Lemma Counter_ge_1 doc_types label :
  (Counter doc_types label >=? 1) = bool_decide (label ∈ doc_types).
Proof.
  unfold Counter. induction doc_types as [| x doc_types IH].
  - done.
  - rewrite filter_cons. destruct (decide (x = label)) as [-> | Hne].
    + rewrite bool_decide_eq_true_2 by constructor.
      simpl length. rewrite Z.geb_leb. apply Z.leb_le. lia.
    + rewrite IH. apply bool_decide_ext. set_solver.
Qed.

(** C6.  [infer_process] tries its rules in a fixed order and the first
    one that matches decides: amendment, then incorporation, then
    employment, then data protection, then "Unknown". *)
Theorem infer_process_rules :
  (∀ doc_types,
     let has label := label ∈ doc_types in
     infer_process doc_types =
       if decide (has "Shareholder Resolution"
                  ∧ has "Articles of Association")
       then "AoA Amendment"
       else if decide ((has "Articles of Association"
                        ∧ (has "Shareholder Resolution"
                           ∨ has "Board Resolution"))
                       ∨ has "Incorporation Application Form")
       then "Company Incorporation (Private Company)"
       else if decide (has "Employment Contract")
       then "Employment Compliance"
       else if decide (has "Appropriate Policy Document")
       then "Data Protection Compliance"
       else "Unknown") ∧
  infer_process [ "Employment Contract" ] = "Employment Compliance" ∧
  infer_process [ "Articles of Association"; "Shareholder Resolution" ]
    = "AoA Amendment" ∧
  infer_process [] = "Unknown".
Proof.
  split; [| by vm_compute].
  intros doc_types has. unfold infer_process. rewrite !Counter_ge_1.
  subst has. simpl.
  repeat case_bool_decide; simpl; repeat case_decide; try done; tauto.
Qed.

End InferenceFacts.

(** * The code on concrete inputs *)

Module ManifestExamples.
Import Py Manifest ManifestFacts.

Local Open Scope string_scope.

Definition employment_entry : json :=
  JObject [ ("id", JString "employment_regulations_2024");
            ("title", JString "Employment Regulations 2024");
            ("type", JString "regulation");
            ("path", JString "employment_regulations_2024.pdf");
            ("scope", JArray [ JString "Employment Contracts" ]) ].

Definition entry_without_id : json :=
  JObject [ ("title", JString "Companies Regulations 2020");
            ("type", JString "regulation");
            ("path", JString "companies_regulations_2020.pdf") ].

(** A disk with a handful of manifests, good and bad. *)
Definition manifests : disk :=
  {| MANIFEST_PATH := "/app/data/sources_manifest.json";
     file_at := λ p,
       if String.eqb p "/app/data/sources_manifest.json" then
         Json (JObject [ ("sources", JArray [ employment_entry ]) ])
       else if String.eqb p "/tmp/empty.json" then Json (JObject [])
       else if String.eqb p "/tmp/missing_id.json" then
         Json (JObject [ ("sources",
                          JArray [ employment_entry; entry_without_id ]) ])
       else if String.eqb p "/tmp/list.json" then Json (JArray [])
       else if String.eqb p "/tmp/names.json" then
         Json (JObject [ ("sources", JArray [ JString "employment" ]) ])
       else if String.eqb p "/tmp/truncated.json" then NotJson
       else if String.eqb p "/tmp/latin1.json" then NotUtf8
       else if String.eqb p "/root/manifest.json" then
         Fails (Exn "PermissionError" "/root/manifest.json")
       else NoSuchFile |}.

Example load_default :
  load manifests None
  = Returned {| sources := [
      {| id := JString "employment_regulations_2024";
         title := JString "Employment Regulations 2024";
         type := JString "regulation";
         path := JString "employment_regulations_2024.pdf";
         citation := JString "";
         scope := JArray [ JString "Employment Contracts" ] |} ] |}.
Proof. reflexivity. Qed.

Example load_without_sources :
  load manifests (Some "/tmp/empty.json") = Returned {| sources := [] |}.
Proof. reflexivity. Qed.

Example load_wrong_shapes :
  load manifests (Some "/tmp/list.json") = Raised (AttributeError "get") ∧
  load manifests (Some "/tmp/names.json")
    = Raised (TypeError "string indices must be integers") ∧
  load manifests (Some "/tmp/truncated.json") = Raised JSONDecodeError ∧
  load manifests (Some "/tmp/nowhere.json") = Raised FileNotFoundError.
Proof. repeat split; reflexivity. Qed.

Example load_unreadable :
  load manifests (Some "/tmp/latin1.json") = Raised UnicodeDecodeError ∧
  load manifests (Some "/root/manifest.json")
    = Raised (Exn "PermissionError" "/root/manifest.json").
Proof. split; reflexivity. Qed.

(** C9 as the specification words it fails: an entry without [id] makes
    [load] raise [KeyError], not [ManifestError], and the entry before it
    is lost with it. *)
Lemma load_missing_id_is_key_error :
  load manifests (Some "/tmp/missing_id.json") = Raised (KeyError "id") ∧
  exn_class (KeyError "id") ≠ "ManifestError".
Proof. split; [reflexivity | done]. Qed.

End ManifestExamples.

Module ExtractionExamples.
Import Py Manifest Extraction ExtractionFacts.

Local Open Scope string_scope.

Example splitext_pdf : splitext_ext "/corpus/data/Rules.v2.PDF" = ".PDF".
Proof. reflexivity. Qed.

Example splitext_hidden : splitext_ext "/corpus/.gitignore" = "".
Proof. reflexivity. Qed.

Example splitext_dotted_dir : splitext_ext "/corpus.d/readme" = "".
Proof. reflexivity. Qed.

Example path_join_data :
  path_join (path_join "/corpus" "data") "rules.pdf" = "/corpus/data/rules.pdf".
Proof. reflexivity. Qed.

Definition rules_source : SourceEntry :=
  {| id := JString "rules"; title := JString "Rulebook";
     type := JString "rulebook"; path := JString "rules.pdf";
     citation := JString ""; scope := JArray [] |}.

Definition notes_source : SourceEntry :=
  {| id := JString "notes"; title := JString "Guidance notes";
     type := JString "guidance"; path := JString "notes.txt";
     citation := JString ""; scope := JArray [] |}.

(** A corpus that holds [data/rules.pdf] and nothing else. *)
Definition corpus
    (pdf_parser : option (string → outcome exn (list (option string))))
    : world :=
  {| path_exists := λ p, String.eqb p "/corpus/data/rules.pdf";
     read_text := λ p,
       if String.eqb p "/corpus/data/rules.pdf"
       then Returned "%PDF-1.7 obj stream"
       else Raised (Exn "FileNotFoundError" p);
     BeautifulSoup := None;
     pypdf := pdf_parser;
     docx := None |}.

Definition failing_pdf_parser (p : string)
    : outcome exn (list (option string)) :=
  Raised (Exn "PdfReadError" "EOF marker not found").

Definition two_page_parser (p : string)
    : outcome exn (list (option string)) :=
  Returned [ Some "Part 1"; None; Some "Part 2" ].

Example read_pdf_pages :
  read_text_from_source ascii_lower (corpus (Some two_page_parser))
    "/corpus" rules_source
  = Returned ("Part 1" +:+ String "010" "" +:+ String "010" "Part 2").
Proof. reflexivity. Qed.

Example read_unresolved :
  read_text_from_source ascii_lower (corpus None) "/corpus" notes_source
  = Returned "".
Proof. reflexivity. Qed.

(** C8 as the specification words it fails.  Without the PDF parser a PDF
    is read raw, so the result is the raw text of the file, not the empty
    string; with the parser, an error inside it is not caught and leaves
    [read_text_from_source] as an exception. *)
Lemma extraction_not_total :
  read_text_from_source ascii_lower (corpus None) "/corpus" rules_source
    = Returned "%PDF-1.7 obj stream" ∧
  read_text_from_source ascii_lower (corpus (Some failing_pdf_parser))
    "/corpus" rules_source
    = Raised (Exn "PdfReadError" "EOF marker not found").
Proof. split; reflexivity. Qed.

Lemma read_text_from_source_raw_witness :
  path rules_source = JString "rules.pdf" ∧
  branch_of ascii_lower (corpus None) "/corpus/data/rules.pdf" = Raw ∧
  read_text_from_source ascii_lower (corpus None) "/corpus" rules_source
    = Returned "%PDF-1.7 obj stream".
Proof.
  split; [reflexivity |]. split; [reflexivity |].
  refine (proj1 (proj2 (proj2 (read_text_from_source_raw ascii_lower
           (corpus None) "/corpus" rules_source "rules.pdf" _)
           "/corpus/data/rules.pdf" _ _)) "%PDF-1.7 obj stream" _ _);
    [reflexivity | reflexivity | reflexivity | done | reflexivity].
Defined.

End ExtractionExamples.

Module RetrievalExamples.
Import Py PyFacts Retrieval RetrievalFacts.

Local Open Scope string_scope.

Definition employment_passage : candidate :=
  ("An employee shall not work more than 48 hours a week.",
   {[ "source_id" := "employment_regulations_2024";
      "scope" := "Employment Contracts;Working Time" ]}).

Definition companies_passage : candidate :=
  ("Articles must be contained in a single document.",
   {[ "source_id" := "companies_regulations_2020";
      "scope" := "AoA;Company Incorporation" ]}).

Definition courts_passage : candidate :=
  ("The ADGM Courts have exclusive jurisdiction.",
   {[ "source_id" := "courts_regulations_2015" ]}).

Definition retrieved : list candidate :=
  [ employment_passage; companies_passage; courts_passage ].

Example scope_filter_narrows :
  filter_by_scopes ascii_lower (Some [ "company incorporation" ]) retrieved
  = [ companies_passage ].
Proof. by vm_compute. Qed.

Example scope_filter_falls_back :
  filter_by_scopes ascii_lower (Some [ "Data Protection" ]) retrieved
  = retrieved.
Proof. by vm_compute. Qed.

Example source_filter_narrows :
  filter_by_source_ids (Some [ "courts_regulations_2015" ]) retrieved
  = [ courts_passage ].
Proof. by vm_compute. Qed.

Lemma filters_never_empty_witness :
  retrieved ≠ [] ∧
  filter_by_source_ids (Some [ "unknown_source" ])
    (filter_by_scopes ascii_lower (Some [ "Data Protection" ]) retrieved)
  ≠ [].
Proof.
  split; [done |].
  apply (filters_never_empty ascii_lower (Some [ "Data Protection" ])
           (Some [ "unknown_source" ]) retrieved).
  done.
Defined.

(** A cross-encoder that scores a passage by its length. *)
Definition length_model : reranker (score := Z) :=
  λ pairs, Returned (map (λ pair, Z.of_nat (String.length pair.2)) pairs).

Definition scoring : backends (score := Z) :=
  {| chromadb :=
       Some (λ name,
         Returned (λ query_text n_results,
           Returned {| documents := map fst retrieved;
                       metadatas := map (λ c, Some (snd c)) retrieved |}));
     CrossEncoder := Some (λ name, Returned length_model) |}.

Definition no_cross_encoder : backends (score := Z) :=
  {| chromadb := chromadb scoring; CrossEncoder := None |}.

Example rerank_by_length :
  rerank Z.ltb scoring true "working hours" retrieved
  = [ employment_passage; companies_passage; courts_passage ].
Proof. by vm_compute. Qed.

Example rerank_ties_keep_order :
  rerank Z.ltb scoring true "q"
    [ ("bb", ∅); ("a", ∅); ("cc", ∅); ("ddd", ∅); ("e", ∅) ]
  = [ ("ddd", ∅); ("bb", ∅); ("cc", ∅); ("a", ∅); ("e", ∅) ].
Proof. by vm_compute. Qed.

Example query_improved_top_2 :
  query_improved ascii_lower Z.ltb scoring "working hours" 2 30
    "adgm_sources" (Some [ "Data Protection" ]) None true
  = Returned [ passage employment_passage; passage companies_passage ].
Proof. by vm_compute. Qed.

Lemma Z_ltb_strict_weak_order : strict_weak_order Z.ltb.
Proof. split; intros; lia. Qed.

Lemma scoring_scores_every_pair : scores_every_pair scoring.
Proof.
  intros load name model pairs scores [= <-] [= <-] [= <-].
  apply length_map.
Qed.

Lemma rerank_permutation_witness :
  strict_weak_order Z.ltb ∧ scores_every_pair scoring ∧
  rerank Z.ltb scoring true "working hours" retrieved ≡ₚ retrieved.
Proof.
  split; [apply Z_ltb_strict_weak_order |].
  split; [apply scoring_scores_every_pair |].
  apply (rerank_permutation Z.ltb scoring true "working hours" retrieved).
  - apply Z_ltb_strict_weak_order.
  - apply scoring_scores_every_pair.
Defined.

End RetrievalExamples.

(** * Further properties of the code *)

(** ** The chunker: windows, sizes, overlaps, termination *)

Module ChunkerWindows.
Import Py PyFacts Chunker ChunkerFacts.

Section Windows.
Context {char : Type}.
Implicit Types (text chunk : list char) (chunks : list (list char)).

(** A slice is a contiguous piece of the sequence. *)
Lemma slice_piece text a b :
  ∃ before after, text = before ++ slice text a b ++ after.
Proof.
  unfold slice.
  set (lo := Z.to_nat (clamp_index (len text) a)).
  set (n := Z.to_nat (clamp_index (len text) b - clamp_index (len text) a)).
  exists (take lo text), (drop n (drop lo text)).
  by rewrite (take_drop n), take_drop.
Qed.

(** A slice that starts inside the sequence, the end clipped or not. *)
Lemma slice_clipped text a b :
  0 ≤ a → a ≤ b →
  slice text a b = take (Z.to_nat (b - a)) (drop (Z.to_nat a) text).
Proof.
  intros Ha Hab. pose proof (len_nonneg text) as Hlen.
  destruct (Z.le_gt_cases b (len text)) as [Hb | Hb];
    [by apply slice_window |].
  unfold slice, clamp_index.
  destruct (Z.ltb_spec a 0); [lia |]. destruct (Z.ltb_spec b 0); [lia |].
  rewrite !take_ge; [| rewrite length_drop; unfold len in *; lia
                     | rewrite length_drop; unfold len in *; lia].
  destruct (Z.le_gt_cases a (len text)).
  - by rewrite Z.min_l by lia.
  - rewrite Z.min_r by lia. rewrite !drop_ge; [done | |];
      unfold len in *; lia.
Qed.

(** What every chunk is, whatever the configuration: not empty, and a
    contiguous piece of the text. *)
Definition piece_of text chunk : Prop :=
  chunk ≠ [] ∧ ∃ before after, text = before ++ chunk ++ after.

Lemma loop_body_pieces text size overlap start chunks :
  Forall (piece_of text) chunks →
  match loop_body text size overlap start chunks with
  | Break chunks' | Continue _ chunks' => Forall (piece_of text) chunks'
  end.
Proof.
  intros Hpieces. unfold loop_body.
  set (chunk := slice text start (Z.min (len text) (start + size))).
  assert (Forall (piece_of text)
            (if truthy chunk then chunks ++ [chunk] else chunks)) as Hnew.
  { destruct chunk as [| c chunk'] eqn:Hchunk; [done |]. simpl.
    apply Forall_app. split; [done |]. constructor; [| done].
    split; [done |]. rewrite <- Hchunk. apply slice_piece. }
  by destruct (_ =? _).
Qed.

Lemma chunk_loop_pieces text size overlap fuel start chunks r :
  Forall (piece_of text) chunks →
  chunk_loop fuel text size overlap start chunks = Some r →
  Forall (piece_of text) r.
Proof.
  revert start chunks.
  induction fuel as [| fuel IH]; intros start chunks Hpieces Hrun; [done |].
  simpl in Hrun. destruct (start <? len text); [| by simplify_eq].
  pose proof (loop_body_pieces text size overlap start chunks Hpieces)
    as Hbody.
  destruct (loop_body text size overlap start chunks)
    as [chunks' | start' chunks']; [by simplify_eq |].
  by eapply IH.
Qed.

(** X1.  Whatever the size and the overlap, every chunk that [chunk_text]
    returns is non-empty and is a contiguous piece of the text. *)
Theorem chunk_text_pieces text size overlap fuel chunks :
  chunk_text fuel text size overlap = Some chunks →
  Forall (λ chunk,
            chunk ≠ [] ∧ ∃ before after, text = before ++ chunk ++ after)
         chunks.
Proof.
  intros Hrun. by eapply (chunk_loop_pieces text size overlap fuel 0 []).
Qed.

(** A text that fits in one window is cut in one pass. *)
Lemma chunk_loop_fits text size overlap fuel :
  text ≠ [] → len text ≤ size →
  chunk_loop (S fuel) text size overlap 0 [] = Some [text].
Proof.
  intros Hne Hfit. simpl.
  assert (0 < len text) as Hpos.
  { destruct text; [done |]. unfold len. simpl. lia. }
  destruct (Z.ltb_spec 0 (len text)); [| lia].
  unfold loop_body. rewrite Z.min_l by lia. rewrite slice_all.
  rewrite truthy_true by done. by rewrite Z.eqb_refl.
Qed.

(** X2.  A non-empty text no longer than [size] comes back as one chunk,
    the text itself, after one pass -- also when the overlap is not below
    the size. *)
Theorem chunk_text_single text size overlap fuel :
  text ≠ [] → len text ≤ size →
  chunk_text (S fuel) text size overlap = Some [text].
Proof.
  intros Hne Hfit. unfold chunk_text. simpl.
  assert (0 < len text) as Hpos.
  { destruct text; [done |]. unfold len. simpl. lia. }
  destruct (Z.ltb_spec 0 (len text)); [| lia].
  unfold loop_body. rewrite Z.min_l by lia. rewrite slice_all.
  rewrite truthy_true by done. by rewrite Z.eqb_refl.
Qed.

(** With [overlap >= size] and a text longer than [size] the loop comes
    back to [start = 0] after every pass. *)
Lemma chunk_loop_spins text size overlap fuel chunks :
  text ≠ [] → size < len text → size ≤ overlap →
  chunk_loop fuel text size overlap 0 chunks = None.
Proof.
  intros Hne Hlong Hov. revert chunks.
  assert (0 < len text) as Hpos.
  { destruct text; [done |]. unfold len. simpl. lia. }
  induction fuel as [| fuel IH]; intros chunks; [done |].
  simpl. destruct (Z.ltb_spec 0 (len text)); [| lia].
  unfold loop_body. rewrite Z.min_r by lia.
  destruct (Z.eqb_spec (0 + size) (len text)); [lia |].
  rewrite Z.max_l by lia. apply IH.
Qed.
(** X3.  [chunk_text] returns exactly when the text is empty, or fits in
    one window, or the overlap is below the size; in every other case the
    loop runs for ever. *)
Theorem chunk_text_returns_iff text size overlap :
  (∃ chunks, chunk_text_returns text size overlap chunks) ↔
  text = [] ∨ len text ≤ size ∨ overlap < size.
Proof.
  split.
  - intros (chunks & fuel & Hrun).
    destruct text as [| c text'] eqn:Htext; [by left |]. right.
    destruct (Z.le_gt_cases (len (c :: text')) size); [by left |]. right.
    destruct (Z.lt_ge_cases overlap size) as [| Hov]; [done |].
    unfold chunk_text in Hrun.
    rewrite chunk_loop_spins in Hrun; [done | done | lia | lia].
  - intros [-> | [Hfit | Hov]].
    + exists [], 1%nat. apply chunk_text_empty.
    + destruct text as [| c text'] eqn:Htext.
      * exists [], 1%nat. apply chunk_text_empty.
      * exists [c :: text'], 1%nat. by apply chunk_loop_fits.
    + destruct (chunk_loop_terminates text size overlap (S (length text)) 0 [])
        as [chunks Hrun]; [done | done | unfold len; lia |].
      by exists chunks, (S (length text)).
Qed.

(** *** Valid configurations: the chunks are the windows of the text *)

(** The [k]-th window: [text[k * stride : k * stride + size]], where the
    stride is [size - overlap]. *)
Definition window text (size overlap : Z) (k : nat) : list char :=
  slice text (Z.of_nat k * (size - overlap))
             (Z.of_nat k * (size - overlap) + size).

Definition windows_inv text (size overlap start : Z) chunks : Prop :=
  ∃ k : nat,
    chunks = map (window text size overlap) (seq 0 k) ∧
    start = Z.of_nat k * (size - overlap) ∧
    (k = 0%nat ∨ (Z.of_nat k - 1) * (size - overlap) + size < len text).

Definition windows_post text (size overlap : Z) chunks : Prop :=
  ∃ n : nat,
    chunks = map (window text size overlap) (seq 0 n) ∧
    ((text = [] ∧ n = 0%nat) ∨
     (text ≠ [] ∧ (1 ≤ n)%nat ∧
      len text ≤ (Z.of_nat n - 1) * (size - overlap) + size ∧
      (n = 1%nat ∨
       (Z.of_nat n - 2) * (size - overlap) + size < len text))).

Lemma slice_min text a b :
  0 ≤ a → a ≤ b → a ≤ len text →
  slice text a (Z.min (len text) b) = slice text a b.
Proof.
  intros Ha Hab Hlen. rewrite !slice_clipped by lia.
  destruct (Z.le_gt_cases b (len text)); [by rewrite Z.min_r by lia |].
  rewrite Z.min_l by lia.
  rewrite !take_ge; [done | |]; rewrite length_drop; unfold len in *; lia.
Qed.

Lemma loop_body_windows text size overlap start chunks :
  0 ≤ overlap < size → start < len text →
  windows_inv text size overlap start chunks →
  match loop_body text size overlap start chunks with
  | Break chunks' => windows_post text size overlap chunks'
  | Continue start' chunks' => windows_inv text size overlap start' chunks'
  end.
Proof.
  intros Hov Hguard (k & Hchunks & Hstart & Hprev).
  assert (0 ≤ start) as Hs0 by nia.
  unfold loop_body.
  rewrite slice_min by lia.
  assert (slice text start (start + size) = window text size overlap k)
    as Hwin by (unfold window; by rewrite Hstart).
  assert (slice text start (start + size) ≠ []) as Hne.
  { intros Hnil.
    assert (len (slice text start (Z.min (len text) (start + size)))
            = Z.min (len text) (start + size) - start) as Hl
      by (apply len_slice_window; lia).
    rewrite slice_min, Hnil in Hl by lia.
    unfold len in *. simpl in Hl. lia. }
  rewrite (truthy_true _ Hne), Hwin.
  assert (chunks ++ [window text size overlap k]
          = map (window text size overlap) (seq 0 (S k))) as Hsnoc.
  { by rewrite seq_S, map_app, Hchunks. }
  rewrite Hsnoc.
  destruct (Z.eqb_spec (Z.min (len text) (start + size)) (len text))
    as [Heq | Hneq].
  - exists (S k). split; [done |]. right.
    split; [intros ->; unfold len in Hguard; simpl in Hguard; lia |].
    split; [lia |]. split; [lia |].
    destruct Hprev as [-> | Hprev]; [by left | right]. lia.
  - exists (S k). split; [done |]. split; [lia |]. right. lia.
Qed.

Lemma chunk_loop_windows text size overlap fuel start chunks r :
  0 ≤ overlap < size →
  windows_inv text size overlap start chunks →
  chunk_loop fuel text size overlap start chunks = Some r →
  windows_post text size overlap r.
Proof.
  intros Hov. revert start chunks.
  induction fuel as [| fuel IH]; intros start chunks Hinv Hrun; [done |].
  simpl in Hrun. destruct (Z.ltb_spec start (len text)) as [Hlt | Hge].
  - pose proof (loop_body_windows text size overlap start chunks Hov Hlt Hinv)
      as Hbody.
    destruct (loop_body text size overlap start chunks)
      as [chunks' | start' chunks']; [by simplify_eq |].
    by eapply IH.
  - simplify_eq. destruct Hinv as (k & Hchunks & Hstart & Hprev).
    exists k. split; [done |]. left.
    destruct Hprev as [-> | Hprev]; [| lia].
    split; [| done]. apply len_nil_inv. pose proof (len_nonneg text). lia.
Qed.

(** The chunks in closed form. *)
Lemma chunk_text_closed_form text size overlap fuel :
  0 ≤ overlap < size → (length text < fuel)%nat →
  ∃ chunks, chunk_text fuel text size overlap = Some chunks ∧
            windows_post text size overlap chunks.
Proof.
  intros Hov Hfuel.
  destruct (chunk_loop_terminates text size overlap fuel 0 [])
    as [chunks Hrun]; [lia | done | unfold len; lia |].
  exists chunks. split; [done |].
  eapply chunk_loop_windows; [done | | done].
  exists 0%nat. split; [done |]. split; [lia | by left].
Qed.

Lemma windows_lookup text size overlap n k chunk :
  map (window text size overlap) (seq 0 n) !! k = Some chunk →
  (k < n)%nat ∧ chunk = window text size overlap k.
Proof.
  rewrite list_lookup_fmap. intros Hk.
  destruct (seq 0 n !! k) as [j |] eqn:Hj; [| done].
  apply lookup_seq in Hj as [-> ?]. simpl in Hk. by simplify_eq.
Qed.

(** A window that ends inside the text is full; the windows before the
    last one do. *)
Lemma window_full text size overlap k :
  0 ≤ overlap < size →
  Z.of_nat k * (size - overlap) + size ≤ len text →
  window text size overlap k =
    take (Z.to_nat size) (drop (k * Z.to_nat (size - overlap)) text) ∧
  len (window text size overlap k) = size.
Proof.
  intros Hov Hend. unfold window.
  split.
  - rewrite slice_window by nia. f_equal; [lia |]. f_equal. nia.
  - rewrite len_slice_window by nia. lia.
Qed.

(** X4.  For [0 <= overlap < size] the chunks are the successive windows
    of the text: chunk [k] is [text[k * (size - overlap) :
    k * (size - overlap) + size]]. *)
Theorem chunk_text_is_windows text size overlap fuel :
  0 ≤ overlap < size → (length text < fuel)%nat →
  ∃ chunks,
    chunk_text fuel text size overlap = Some chunks ∧
    ∀ (k : nat) chunk,
      chunks !! k = Some chunk →
      chunk = slice text (Z.of_nat k * (size - overlap))
                         (Z.of_nat k * (size - overlap) + size).
Proof.
  intros Hov Hfuel.
  destruct (chunk_text_closed_form text size overlap fuel Hov Hfuel)
    as (chunks & Hrun & n & -> & _).
  eexists. split; [done |]. intros k chunk Hk.
  by apply windows_lookup in Hk as [_ ->].
Qed.

(** X5.  For [0 <= overlap < size] no chunk is longer than [size], and
    every chunk but the last has exactly [size] characters. *)
Theorem chunk_text_sizes text size overlap fuel :
  0 ≤ overlap < size → (length text < fuel)%nat →
  ∃ chunks,
    chunk_text fuel text size overlap = Some chunks ∧
    Forall (λ chunk, 1 ≤ len chunk ≤ size) chunks ∧
    ∀ (k : nat) chunk,
      chunks !! k = Some chunk → (S k < length chunks)%nat →
      len chunk = size.
Proof.
  intros Hov Hfuel.
  destruct (chunk_text_closed_form text size overlap fuel Hov Hfuel)
    as (chunks & Hrun & n & -> & Hn).
  eexists. split; [done |].
  assert (∀ k chunk,
            map (window text size overlap) (seq 0 n) !! k = Some chunk →
            (S k < n)%nat → len chunk = size) as Hfull.
  { intros k chunk Hk Hlast. apply windows_lookup in Hk as [_ ->].
    apply window_full; [done |].
    destruct Hn as [[_ ->] | (_ & _ & _ & [-> | Hlong])]; [lia | lia | nia]. }
  split.
  - apply Forall_lookup. intros k chunk Hk.
    destruct (decide (S k < n)%nat) as [Hlast | Hlast].
    { rewrite (Hfull k chunk Hk Hlast). lia. }
    apply windows_lookup in Hk as [Hkn ->].
    destruct Hn as [[_ ->] | (Hne & _ & Hup & Hlow)]; [lia |].
    assert (k = (n - 1)%nat) as -> by lia.
    assert (Z.of_nat (n - 1) * (size - overlap) < len text) as Hstart.
    { destruct Hlow as [-> | Hlow].
      - simpl. destruct text; [done |]. unfold len. simpl. lia.
      - nia. }
    unfold window.
    rewrite <- slice_min by nia. rewrite len_slice_window by nia. lia.
  - intros k chunk Hk. rewrite length_map, length_seq. by apply Hfull.
Qed.

(** X6.  For [0 <= overlap < size] two consecutive chunks share
    [overlap] characters: the last [overlap] characters of a chunk are the
    first [overlap] characters of the next one. *)
Theorem chunk_text_overlaps text size overlap fuel :
  0 ≤ overlap < size → (length text < fuel)%nat →
  ∃ chunks,
    chunk_text fuel text size overlap = Some chunks ∧
    ∀ (k : nat) chunk next,
      chunks !! k = Some chunk → chunks !! S k = Some next →
      drop (Z.to_nat (size - overlap)) chunk = take (Z.to_nat overlap) next ∧
      len (take (Z.to_nat overlap) next) = overlap.
Proof.
  intros Hov Hfuel.
  destruct (chunk_text_closed_form text size overlap fuel Hov Hfuel)
    as (chunks & Hrun & n & -> & Hn).
  eexists. split; [done |]. intros k chunk next Hk Hnext.
  apply windows_lookup in Hk as [_ ->].
  apply windows_lookup in Hnext as [Hkn ->].
  destruct Hn as [[_ ->] | (Hne & _ & Hup & [-> | Hlow])]; [lia | lia |].
  assert (Z.of_nat k * (size - overlap) + size < len text) as Hend by nia.
  destruct (window_full text size overlap k Hov ltac:(lia)) as [-> _].
  unfold window. rewrite <- slice_min by nia. rewrite slice_window by nia.
  set (d := Z.to_nat (size - overlap)).
  assert (Z.to_nat (Z.of_nat (S k) * (size - overlap)) = (k * d + d)%nat)
    as -> by (subst d; nia).
  assert (Z.of_nat (k * d + d) + overlap < len text) as Hnext
    by (subst d; nia).
  rewrite take_take.
  rewrite (Nat.min_l (Z.to_nat overlap)) by (subst d; nia).
  split.
  - rewrite !take_drop_commute, drop_drop. f_equal. f_equal. subst d. lia.
  - unfold len in *. rewrite length_take, length_drop. lia.
Qed.
End Windows.

End ChunkerWindows.

(** ** The checklist engine: partition, monotonicity, the two comparisons *)

Module ChecklistMore.
Import Checklists Inference ChecklistFacts InferenceFacts.

Local Open Scope string_scope.

Lemma compute_missing_docs_filters process uploaded :
  compute_missing_docs process uploaded =
    (filter (requirement_met uploaded)
            (default [] (REQUIRED_DOCS_BY_PROCESS !! process)),
     filter (λ req, ¬ requirement_met uploaded req)
            (default [] (REQUIRED_DOCS_BY_PROCESS !! process))).
Proof. unfold compute_missing_docs. by rewrite fold_classify. Qed.

(** X7.  [compute_missing_docs] splits the required list of the process:
    every requirement lands in exactly one of the two lists, so the
    lengths add up to the number of required documents. *)
Theorem compute_missing_docs_partition process uploaded :
  let required := default [] (REQUIRED_DOCS_BY_PROCESS !! process) in
  let result := compute_missing_docs process uploaded in
  result.1 ++ result.2 ≡ₚ required ∧
  (length result.1 + length result.2 = length required)%nat ∧
  ∀ req, req ∈ required → (req ∈ result.1 ↔ req ∉ result.2).
Proof.
  intros required result. subst result.
  rewrite compute_missing_docs_filters. fold required. simpl.
  pose proof (filter_app_complement (requirement_met uploaded) required)
    as Hperm.
  split; [done |]. split.
  - rewrite <- length_app. by rewrite Hperm.
  - intros req Hreq. rewrite !list_elem_of_filter.
    destruct (decide (requirement_met uploaded req)); tauto.
Qed.

Lemma requirement_met_mono uploaded uploaded' req :
  (∀ label, label ∈ uploaded → label ∈ uploaded') →
  requirement_met uploaded req → requirement_met uploaded' req.
Proof.
  intros Hsub. unfold requirement_met.
  destruct (SYNONYMS !! req); naive_solver.
Qed.

(** X8.  Uploading more never hurts: with a larger set of uploaded
    labels, everything that was present stays present and nothing new
    goes missing. *)
Theorem compute_missing_docs_monotone process uploaded uploaded' :
  (∀ label, label ∈ uploaded → label ∈ uploaded') →
  (∀ req, req ∈ (compute_missing_docs process uploaded).1 →
          req ∈ (compute_missing_docs process uploaded').1) ∧
  (∀ req, req ∈ (compute_missing_docs process uploaded').2 →
          req ∈ (compute_missing_docs process uploaded).2).
Proof.
  intros Hsub. rewrite !compute_missing_docs_filters. simpl.
  split; intros req; rewrite !list_elem_of_filter;
    pose proof (requirement_met_mono uploaded uploaded' req Hsub);
    tauto.
Qed.

(** The basic comparison as two filters. *)
Lemma compare_uploaded_to_required_filters process uploaded :
  compare_uploaded_to_required process uploaded =
    (filter (λ req, req ∈ uploaded)
            (default [] (REQUIRED_DOCS_BY_PROCESS !! process)),
     filter (λ req, req ∉ uploaded)
            (default [] (REQUIRED_DOCS_BY_PROCESS !! process))).
Proof.
  unfold compare_uploaded_to_required. cbv zeta.
  generalize (default [] (REQUIRED_DOCS_BY_PROCESS !! process)).
  intros required.
  match goal with
  | |- context [fold_left ?f required _] =>
      assert (∀ t, fold_left f required t =
                   Tally (present t ++ filter (λ req, req ∈ uploaded) required)
                         (missing t ++ filter (λ req, req ∉ uploaded) required))
        as Hfold
  end.
  { induction required as [| req required IH]; intros t.
    - simpl. rewrite !app_nil_r. by destruct t.
    - simpl. rewrite IH, !filter_cons.
      destruct (decide (req ∈ uploaded)) as [Hin | Hout].
      + rewrite bool_decide_eq_true_2, decide_False by tauto. simpl.
        by rewrite <- app_assoc.
      + rewrite bool_decide_eq_false_2, decide_True by done. simpl.
        by rewrite <- app_assoc. }
  by rewrite Hfold.
Qed.

Lemma REQUIRED_DOCS_BY_PROCESS_lookup process :
  REQUIRED_DOCS_BY_PROCESS !! process =
    if decide (process = "Company Incorporation (Private Company)") then
      Some [ "Articles of Association"; "Board Resolution";
             "Incorporation Application Form"; "UBO Declaration Form";
             "Register of Members and Directors" ]
    else if decide (process = "Employment Compliance") then
      Some [ "Employment Contract" ]
    else if decide (process = "Data Protection Compliance") then
      Some [ "Appropriate Policy Document" ]
    else if decide (process = "AoA Amendment") then
      Some [ "Articles of Association"; "Shareholder Resolution" ]
    else None.
Proof.
  unfold REQUIRED_DOCS_BY_PROCESS. simpl.
  rewrite !lookup_insert. rewrite lookup_empty.
  repeat case_decide; congruence.
Qed.

(** X9.  [compare_uploaded_to_required] and [compute_missing_docs] give
    the same answer for every process but the incorporation of a private
    company, the only one with a composite requirement; there, they agree
    on every requirement but the composite one. *)
Theorem compare_agrees_with_compute process uploaded :
  (process ≠ "Company Incorporation (Private Company)" →
   compare_uploaded_to_required process uploaded
     = compute_missing_docs process uploaded) ∧
  (∀ req, req ≠ "Register of Members and Directors" →
     (req ∈ (compare_uploaded_to_required process uploaded).1 ↔
      req ∈ (compute_missing_docs process uploaded).1) ∧
     (req ∈ (compare_uploaded_to_required process uploaded).2 ↔
      req ∈ (compute_missing_docs process uploaded).2)).
Proof.
  assert (∀ req, req ≠ "Register of Members and Directors" →
            (requirement_met uploaded req ↔ req ∈ uploaded)) as Hdirect.
  { intros req Hreq. unfold requirement_met, SYNONYMS.
    by rewrite lookup_singleton_ne. }
  rewrite compute_missing_docs_filters, compare_uploaded_to_required_filters.
  simpl. split.
  - intros Hprocess. rewrite REQUIRED_DOCS_BY_PROCESS_lookup.
    rewrite decide_False by done.
    repeat case_decide; simpl; [| | | done];
      rewrite !filter_cons, !filter_nil;
      repeat (rewrite <- (decide_ext _ _ (Hdirect _ ltac:(done)))
              || rewrite <- (decide_ext (¬ requirement_met _ _) (_ ∉ _))
                   by (by rewrite Hdirect));
      done.
  - intros req Hreq. rewrite !list_elem_of_filter.
    specialize (Hdirect req Hreq). tauto.
Qed.
End ChecklistMore.

(** ** The classifier and the generative model *)

Module ClassifierFacts.
Import Py PyFacts Str Docx Gemini Classifier Checklists Inference.
Import ChecklistFacts ChecklistMore.

Local Open Scope string_scope.

Lemma append_empty (s : string) : s +:+ "" = s.
Proof. induction s as [| c s IH]; [done |]. by rewrite append_String, IH. Qed.

Lemma contains_self (s : string) : contains s s = true.
Proof.
  apply contains_occurs. exists "", "". simpl. by rewrite append_empty.
Qed.

Section Classify.
Context (lower strip : string → string) (show_labels : list string → string).
Context (re_search : string → string → bool).

(** The exact-match test after the loop never decides: a candidate that
    is one of the labels is found by the loop. *)
Lemma normalise_first candidate labels :
  normalise lower candidate labels =
    List.find (λ label, contains (lower candidate) (lower label)) labels.
Proof.
  unfold normalise.
  destruct (List.find _ labels) as [label |] eqn:Hfind; [done |].
  rewrite bool_decide_eq_false_2; [done |]. intros Hin.
  apply list_elem_of_In in Hin.
  apply (find_none _ _ Hfind) in Hin. by rewrite contains_self in Hin.
Qed.

Lemma gemini_classify_some self text labels label :
  Gemini.classify lower strip show_labels self text labels = Some label →
  label ∈ labels ∧
  ∃ generate_content reply,
    enabled self = true ∧ model self = Some generate_content ∧
    generate_content (classify_prompt show_labels text labels)
      = Returned (Text reply) ∧
    reply ≠ "" ∧
    List.find (λ l, contains (lower (strip reply)) (lower l)) labels
      = Some label.
Proof.
  unfold Gemini.classify. destruct (enabled self); [| done]. simpl.
  destruct (model self) as [generate_content |]; [| done].
  destruct (generate_content _) as [[| | reply] |] eqn:Hreply; try done.
  destruct (String.eqb_spec reply "") as [| Hreply_ne]; [done |].
  rewrite normalise_first. intros Hfind. split.
  - apply find_some in Hfind as [Hin _]. by apply list_elem_of_In.
  - by exists generate_content, reply.
Qed.

(** X10.  When [GeminiClient.classify] answers, the answer is one of the
    labels it was given: the first one whose lower-case form occurs in
    the lower-case reply of the model.  The exact-match test that follows
    the loop can never change the answer. *)
Theorem gemini_classify_first_label self text labels label :
  Gemini.classify lower strip show_labels self text labels = Some label →
  label ∈ labels ∧
  ∃ generate_content reply,
    enabled self = true ∧ model self = Some generate_content ∧
    generate_content (classify_prompt show_labels text labels)
      = Returned (Text reply) ∧
    reply ≠ "" ∧
    List.find (λ l, contains (lower (strip reply)) (lower l)) labels
      = Some label.
Proof.
  unfold Gemini.classify. destruct (enabled self); [| done]. simpl.
  destruct (model self) as [generate_content |]; [| done].
  destruct (generate_content _) as [[| | reply] |] eqn:Hreply; try done.
  destruct (String.eqb_spec reply "") as [| Hreply_ne]; [done |].
  rewrite normalise_first. intros Hfind. split.
  - apply find_some in Hfind as [Hin _]. by apply list_elem_of_In.
  - by exists generate_content, reply.
Qed.

Lemma by_filename_known lower_name label :
  by_filename lower_name = Some label → label ∈ KNOWN_LABELS.
Proof.
  unfold by_filename, KNOWN_LABELS.
  repeat (destruct (_ && _) || destruct (contains lower_name _));
    intros [= <-]; set_solver.
Qed.

Lemma by_content_known text_lower label :
  by_content re_search text_lower = Some label → label ∈ KNOWN_LABELS.
Proof.
  unfold by_content, KNOWN_LABELS.
  repeat destruct (re_search _ _); intros [= <-]; set_solver.
Qed.

Lemma classify_known_label_aux gemini filename doc :
  Classifier.classify lower strip show_labels re_search gemini filename doc
    ∈ KNOWN_LABELS.
Proof.
  unfold Classifier.classify.
  destruct (by_filename _) as [label |] eqn:Hname;
    [by eapply by_filename_known |].
  destruct (by_content _ _) as [label |] eqn:Hcontent;
    [by eapply by_content_known |].
  destruct (Gemini.classify _ _ _ _ _ _) as [label |] eqn:Hgemini.
  - destruct (String.eqb label ""); [unfold KNOWN_LABELS; set_solver |].
    by apply gemini_classify_some in Hgemini as [? _].
  - unfold KNOWN_LABELS. set_solver.
Qed.

(** X11.  [DocumentClassifier.classify] always answers with one of
    [KNOWN_LABELS], whatever the file name, the document and the model. *)
Theorem classify_known_label gemini filename doc :
  Classifier.classify lower strip show_labels re_search gemini filename doc
    ∈ KNOWN_LABELS.
Proof.
  unfold Classifier.classify.
  destruct (by_filename _) as [label |] eqn:Hname;
    [by eapply by_filename_known |].
  destruct (by_content _ _) as [label |] eqn:Hcontent;
    [by eapply by_content_known |].
  destruct (Gemini.classify _ _ _ _ _ _) as [label |] eqn:Hgemini.
  - destruct (String.eqb label ""); [unfold KNOWN_LABELS; set_solver |].
    by apply gemini_classify_some in Hgemini as [? _].
  - unfold KNOWN_LABELS. set_solver.
Qed.
(** Without the model, the rules decide alone. *)
Definition RULE_LABELS : list string :=
  [ "Articles of Association"; "Shareholder Resolution";
    "Incorporation Application Form"; "Register of Members";
    "Register of Directors"; "Employment Contract";
    "Data Protection Policy"; "Appropriate Policy Document"; "Other" ].

Lemma classify_rule_label gemini filename doc :
  enabled gemini = false ∨ model gemini = None →
  Classifier.classify lower strip show_labels re_search gemini filename doc
    ∈ RULE_LABELS.
Proof.
  intros Hoff. unfold Classifier.classify, RULE_LABELS.
  destruct (by_filename _) as [label |] eqn:Hname.
  { revert Hname. unfold by_filename.
    repeat (destruct (_ && _) || destruct (contains _ _));
      intros [= <-]; set_solver. }
  destruct (by_content _ _) as [label |] eqn:Hcontent.
  { revert Hcontent. unfold by_content.
    repeat destruct (re_search _ _); intros [= <-]; set_solver. }
  assert (Gemini.classify lower strip show_labels gemini (full_text doc)
            KNOWN_LABELS = None) as ->.
  { unfold Gemini.classify. destruct Hoff as [-> | ->]; [done |].
    by destruct (enabled gemini). }
  set_solver.
Qed.
End Classify.

End ClassifierFacts.

(** ** From classification to the checklist *)

Module Pipeline.
Import Py PyFacts Str Docx Gemini Classifier Checklists Inference.
Import ChecklistFacts InferenceFacts ChecklistMore ClassifierFacts.

Local Open Scope string_scope.

Lemma direct_requirement uploaded req :
  req ≠ "Register of Members and Directors" →
  requirement_met uploaded req ↔ req ∈ uploaded.
Proof.
  intros Hreq. unfold requirement_met, SYNONYMS.
  by rewrite lookup_singleton_ne.
Qed.

Lemma incorporation_missing uploaded req :
  req ∈ [ "Articles of Association"; "Board Resolution";
          "Incorporation Application Form"; "UBO Declaration Form" ] →
  req ∉ uploaded →
  req ∈ (compute_missing_docs "Company Incorporation (Private Company)"
           uploaded).2.
Proof.
  intros Hreq Hout. rewrite compute_missing_docs_filters. simpl.
  rewrite REQUIRED_DOCS_BY_PROCESS_lookup, decide_True by done. simpl.
  apply list_elem_of_filter. split.
  - rewrite direct_requirement; [done |]. set_solver.
  - set_solver.
Qed.

(** X12.  No label the classifier can give is "UBO Declaration Form", so
    the checklist of the incorporation process always reports that
    document missing, whatever is uploaded and classified. *)
Theorem incorporation_always_misses_ubo :
  (∀ uploaded,
     Forall (λ label, label ∈ KNOWN_LABELS) uploaded →
     "UBO Declaration Form"
       ∈ (compute_missing_docs "Company Incorporation (Private Company)"
            uploaded).2) ∧
  (∀ lower strip show_labels re_search gemini
     (files : list (string * Document)),
     "UBO Declaration Form"
       ∈ (compute_missing_docs "Company Incorporation (Private Company)"
            (map (λ file,
                    Classifier.classify lower strip show_labels re_search
                      gemini file.1 file.2)
                 files)).2).
Proof.
  assert (∀ uploaded,
            Forall (λ label, label ∈ KNOWN_LABELS) uploaded →
            "UBO Declaration Form" ∉ uploaded) as Hubo.
  { intros uploaded Hknown Hin. rewrite Forall_forall in Hknown.
    apply Hknown in Hin. unfold KNOWN_LABELS in Hin. set_solver. }
  split.
  - intros uploaded Hknown. apply incorporation_missing; [set_solver |].
    by apply Hubo.
  - intros lower strip show_labels re_search gemini files.
    apply incorporation_missing; [set_solver |]. apply Hubo.
    apply Forall_forall. intros label Hin.
    apply list_elem_of_fmap in Hin as (file & -> & _).
    apply classify_known_label_aux.
Qed.

(** X13.  With the generative model switched off the classifier never
    answers "Board Resolution" (a resolution is filed as a shareholder
    resolution), so the incorporation checklist then always reports the
    board resolution missing. *)
Theorem board_resolution_needs_gemini lower strip show_labels re_search
    gemini (files : list (string * Document)) :
  enabled gemini = false ∨ model gemini = None →
  let detected :=
    map (λ file,
           Classifier.classify lower strip show_labels re_search gemini
             file.1 file.2)
        files in
  "Board Resolution" ∉ detected ∧
  "Board Resolution"
    ∈ (compute_missing_docs "Company Incorporation (Private Company)"
         detected).2.
Proof.
  intros Hoff detected.
  assert ("Board Resolution" ∉ detected) as Hout.
  { intros Hin. apply list_elem_of_fmap in Hin as (file & Hlabel & _).
    pose proof (classify_rule_label lower strip show_labels re_search
                  gemini file.1 file.2 Hoff) as Hrule.
    rewrite <- Hlabel in Hrule. unfold RULE_LABELS in Hrule. set_solver. }
  split; [done |]. apply incorporation_missing; [set_solver | done].
Qed.

(** X14.  Whenever [infer_process] does not answer with the incorporation
    process, the checklist of the process it answers with has nothing
    missing for the very labels it was inferred from. *)
Theorem inferred_checklist_complete doc_types :
  infer_process doc_types = "Company Incorporation (Private Company)" ∨
  (compute_missing_docs (infer_process doc_types) doc_types).2 = [].
Proof.
  unfold infer_process. rewrite !Counter_ge_1.
  repeat case_bool_decide; cbn [andb orb]; try (by left); right;
    rewrite compute_missing_docs_filters, REQUIRED_DOCS_BY_PROCESS_lookup;
    simpl; rewrite ?filter_cons, ?filter_nil;
    rewrite ?decide_False; try done;
    rewrite direct_requirement by done; tauto.
Qed.

End Pipeline.

(** ** Retrieval: what the filters and the cut keep *)

Module RetrievalMore.
Import Py PyFacts Retrieval RetrievalFacts BasicQuery.

Local Open Scope string_scope.
Local Open Scope Z_scope.

Section Filters.
Context (lower : string → string).
Implicit Types (candidates : list candidate).

Lemma List_filter_sublist {A} (P : A → bool) (l : list A) :
  List.filter P l `sublist_of` l.
Proof.
  induction l as [| x l IH]; [done |]. simpl.
  destruct (P x); by constructor.
Qed.

Lemma List_filter_idemp {A} (P : A → bool) (l : list A) :
  List.filter P (List.filter P l) = List.filter P l.
Proof.
  induction l as [| x l IH]; [done |]. simpl.
  destruct (P x) eqn:HP; [| done]. simpl. by rewrite HP, IH.
Qed.

(** A stage that keeps what passes a test, or everything when nothing
    passes. *)
Lemma fallback_sublist {A} (P : A → bool) (l : list A) :
  (if truthy (List.filter P l) then List.filter P l else l) `sublist_of` l.
Proof.
  destruct (List.filter P l) eqn:Hkept; [done |]. simpl. rewrite <- Hkept.
  apply List_filter_sublist.
Qed.

Lemma fallback_idemp {A} (P : A → bool) (l : list A) :
  let stage l := if truthy (List.filter P l) then List.filter P l else l in
  stage (stage l) = stage l.
Proof.
  cbv beta zeta. pose proof (List_filter_idemp P l) as Hidemp.
  destruct (List.filter P l) as [| x kept] eqn:Hkept.
  - cbn [truthy]. by rewrite Hkept.
  - cbn [truthy]. by rewrite Hidemp.
Qed.

Lemma filters_sublist filter_scopes filter_source_ids candidates :
  filter_by_scopes lower filter_scopes candidates `sublist_of` candidates ∧
  filter_by_source_ids filter_source_ids candidates
    `sublist_of` candidates.
Proof.
  unfold filter_by_scopes, filter_by_source_ids.
  destruct (given filter_scopes) as [scopes |];
    destruct (given filter_source_ids) as [ids |];
    split; try done; apply fallback_sublist.
Qed.

(** X15.  The two filters only narrow: what they return is a sub-list of
    the candidates, in the same order, and filtering a second time with
    the same request changes nothing. *)
Theorem filters_narrow filter_scopes filter_source_ids candidates :
  filter_by_scopes lower filter_scopes candidates `sublist_of` candidates ∧
  filter_by_source_ids filter_source_ids candidates
    `sublist_of` candidates ∧
  filter_by_scopes lower filter_scopes
    (filter_by_scopes lower filter_scopes candidates)
    = filter_by_scopes lower filter_scopes candidates ∧
  filter_by_source_ids filter_source_ids
    (filter_by_source_ids filter_source_ids candidates)
    = filter_by_source_ids filter_source_ids candidates.
Proof.
  unfold filter_by_scopes, filter_by_source_ids.
  destruct (given filter_scopes) as [scopes |];
    destruct (given filter_source_ids) as [ids |];
    repeat split;
    try done; try apply fallback_sublist;
    try apply (fallback_idemp (scope_matches lower (map lower scopes)));
    try apply (fallback_idemp (source_id_matches (list_to_set ids))).
Qed.
End Filters.

Section Query.
Context (lower : string → string).
Context {score : Type} (score_lt : score → score → bool).
Implicit Types (b : backends (score := score)).

(** [candidates[:top_k]]: the first [top_k] for a count that is not
    negative, all but the last [-top_k] for a negative one. *)
Lemma slice_to_take {A} (l : list A) (top_k : Z) :
  slice_to l top_k =
    take (Z.to_nat (if top_k <? 0 then len l + top_k else top_k)) l.
Proof.
  unfold slice_to, slice, clamp_index. simpl.
  pose proof (len_nonneg l) as Hlen.
  rewrite (Z.min_l 0) by lia. rewrite drop_0, Z.sub_0_r.
  destruct (Z.ltb_spec top_k 0).
  - f_equal. lia.
  - destruct (Z.le_gt_cases top_k (len l)).
    + by rewrite Z.min_l by lia.
    + rewrite Z.min_r by lia. rewrite !take_ge; [done | |];
        unfold len in *; lia.
Qed.

Lemma rerank_sublist_length b use_reranker query_text
    (candidates : list candidate) :
  scores_every_pair b →
  length (rerank score_lt b use_reranker query_text candidates)
    = length candidates.
Proof.
  intros Hscores. unfold rerank.
  destruct (CrossEncoder b) as [load |] eqn:Hload; [| done].
  destruct (use_reranker && truthy candidates); [| done].
  destruct (rank _ _ _ _) as [ranked |] eqn:Hrank; [| done].
  apply rank_returns in Hrank as (model & scores & Hmodel & Hpredict & ->).
  apply Permutation_length, ranking_candidates.
  rewrite (Hscores _ _ _ _ _ Hload Hmodel Hpredict). apply length_map.
Qed.

(** The candidates that re-ranking hands on are candidates it was
    given, also when the scores are too few. *)
Lemma rerank_elem_of b use_reranker query_text
    (candidates : list candidate) c :
  c ∈ rerank score_lt b use_reranker query_text candidates → c ∈ candidates.
Proof.
  unfold rerank.
  destruct (CrossEncoder b) as [load |]; [| done].
  destruct (use_reranker && truthy candidates); [| done].
  destruct (rank _ _ _ _) as [ranked |] eqn:Hrank; [| done].
  apply rank_returns in Hrank as (model & scores & _ & _ & ->).
  intros Hin. apply list_elem_of_fmap in Hin as ([c' s] & -> & Hin).
  unfold ranking in Hin. rewrite sorted_perm in Hin.
  by apply elem_of_zip_l in Hin.
Qed.

(** X16.  [query_improved] raises exactly when the vector store is
    missing, or opening the collection or querying it raises; a failure
    of the re-ranker never reaches the caller. *)
Theorem query_improved_raises b query_text top_k pre_k collection_name
    filter_scopes filter_source_ids use_reranker :
  (∃ e, query_improved lower score_lt b query_text top_k pre_k
          collection_name filter_scopes filter_source_ids use_reranker
        = Raised e) ↔
  chromadb b = None ∨
  ∃ get_collection,
    chromadb b = Some get_collection ∧
    ((∃ e, get_collection collection_name = Raised e) ∨
     ∃ collection e,
       get_collection collection_name = Returned collection ∧
       collection query_text (Z.max pre_k top_k) = Raised e).
Proof.
  unfold query_improved.
  destruct (chromadb b) as [get_collection |]; [| naive_solver].
  destruct (get_collection collection_name) as [collection | e] eqn:Hget;
    simpl; [| naive_solver].
  destruct (collection query_text _) as [pre | e] eqn:Hquery; simpl.
  - split; [by intros [? ?] |].
    intros [? | (g & Hg & [[e He] | (collection' & e & Hc & He)])];
      [done | |]; injection Hg as <-; congruence.
  - split; [| by eauto]. intros _. right. exists get_collection.
    split; [done |]. right. rewrite Hget. by exists collection, e.
Qed.

(** X17.  What [query_improved] returns: no more than [top_k] passages
    when [top_k] is not negative, each one a retrieved document with its
    metadata, and each one with a ["text"] entry. *)
Theorem query_improved_passages b query_text top_k pre_k collection_name
    filter_scopes filter_source_ids use_reranker passages :
  query_improved lower score_lt b query_text top_k pre_k collection_name
    filter_scopes filter_source_ids use_reranker = Returned passages →
  (0 ≤ top_k → len passages ≤ top_k) ∧
  Forall (λ p, is_Some (p !! "text")) passages ∧
  ∃ get_collection collection pre,
    chromadb b = Some get_collection ∧
    get_collection collection_name = Returned collection ∧
    collection query_text (Z.max pre_k top_k) = Returned pre ∧
    Forall (λ p, ∃ d m,
              (d, m) ∈ zip (documents pre) (metadatas pre) ∧
              p = passage (d, default ∅ m))
           passages.
Proof.
  unfold query_improved.
  destruct (chromadb b) as [get_collection |]; [| done].
  destruct (get_collection collection_name) as [collection |] eqn:Hget;
    [| done]. simpl.
  destruct (collection query_text _) as [pre |] eqn:Hquery; [| done]. simpl.
  intros [= <-]. rewrite slice_to_take.
  split; [| split].
  - intros Htop. destruct (Z.ltb_spec top_k 0); [lia |].
    unfold len. rewrite length_map, length_take. lia.
  - apply Forall_fmap, Forall_forall. intros [d m] _. simpl.
    unfold passage. simpl.
    destruct (m !! "text") as [t |] eqn:Ht.
    + exists t. by apply lookup_union_Some_l.
    + exists d. rewrite lookup_union_r by done.
      by rewrite lookup_singleton_eq.
  - exists get_collection, collection, pre. repeat split; try done.
    apply Forall_fmap, Forall_forall. intros c Hc. simpl.
    apply elem_of_take in Hc as (i & Hc & _).
    apply list_elem_of_lookup_2 in Hc.
    apply rerank_elem_of in Hc.
    pose proof (filters_sublist lower filter_scopes filter_source_ids)
      as Hnarrow.
    assert (c ∈ zip_with (λ d m, (d, default ∅ m)) (documents pre)
                  (metadatas pre)) as Hretrieved.
    { destruct (Hnarrow (filter_by_scopes lower filter_scopes
                  (zip_with (λ d m, (d, default ∅ m)) (documents pre)
                     (metadatas pre)))) as [_ Hids].
      apply (elem_of_sublist _ _ _ Hc) in Hids.
      destruct (Hnarrow (zip_with (λ d m, (d, default ∅ m)) (documents pre)
                  (metadatas pre))) as [Hscopes _].
      by apply (elem_of_sublist _ _ _ Hids) in Hscopes. }
    rewrite zip_with_zip in Hretrieved.
    apply list_elem_of_fmap in Hretrieved as ([d m] & -> & Hdm).
    by exists d, m.
Qed.
End Query.

(** *** Sorting what is sorted *)

Section SortedAgain.
Context {A K : Type} (lt : K → K → bool) (key : A → K).

Lemma ascending_reverse (l : list A) :
  descending lt key l → ascending lt key (reverse l).
Proof.
  unfold ascending, descending. induction 1 as [| x l Hl IH Hx].
  - constructor.
  - rewrite reverse_cons. apply StronglySorted_app_2; [| done |].
    + intros y z Hy Hz. apply list_elem_of_singleton in Hz as ->.
      rewrite Forall_forall in Hx. apply Hx. by apply elem_of_reverse.
    + repeat constructor.
Qed.

Lemma sort_stable_ascending_id (l : list A) :
  ascending lt key l → sort_stable lt key l = l.
Proof.
  unfold ascending. induction 1 as [| x l Hl IH Hx]; [done |].
  simpl. rewrite IH. destruct l as [| y l']; [done |]. simpl.
  apply Forall_cons in Hx as [Hy _]. by rewrite Hy.
Qed.

(** A list in descending order of the keys is what
    [sorted(..., reverse=True)] returns for it. *)
Lemma sorted_descending_id (l : list A) :
  descending lt key l → sorted lt key true l = l.
Proof.
  intros Hdesc. unfold sorted.
  rewrite sort_stable_ascending_id by by apply ascending_reverse.
  apply reverse_involutive.
Qed.
End SortedAgain.

Section Plain.
Context (lower : string → string).
Context {score : Type} (score_lt : score → score → bool).
Implicit Types (b : backends (score := score)).

Lemma slice_to_fmap {A B} (f : A → B) (l : list A) (k : Z) :
  slice_to (f <$> l) k = f <$> slice_to l k.
Proof.
  rewrite !slice_to_take. unfold len. rewrite length_fmap.
  by rewrite fmap_take.
Qed.

(** X18.  With no filter and no re-ranking [query_improved] is [query]
    for [max(pre_k, top_k)] results, cut to [top_k]. *)
Theorem query_improved_plain b query_text top_k pre_k collection_name
    use_reranker :
  use_reranker = false ∨ CrossEncoder b = None →
  query_improved lower score_lt b query_text top_k pre_k collection_name
    None None use_reranker
  = bind (query b (Z.max pre_k top_k) query_text collection_name)
         (λ passages, Returned (slice_to passages top_k)).
Proof.
  intros Hoff. unfold query_improved, query.
  destruct (chromadb b) as [get_collection |]; [| done].
  destruct (get_collection collection_name) as [collection |]; [| done].
  simpl. destruct (collection query_text _) as [pre |]; [| done]. simpl.
  assert (∀ candidates,
            rerank score_lt b use_reranker query_text candidates
            = candidates) as Hrerank.
  { intros candidates. unfold rerank.
    destruct Hoff as [-> | ->]; [by destruct (CrossEncoder b) | done]. }
  rewrite Hrerank. f_equal.
  change (map passage ?l) with (passage <$> l).
  rewrite <- slice_to_fmap. f_equal.
  unfold filter_by_source_ids, filter_by_scopes. simpl.
  generalize (metadatas pre).
  induction (documents pre) as [| d ds IH]; intros [| m ms]; simpl;
    [done .. |].
  by rewrite <- IH.
Qed.

(** The candidates with their scores, for a scorer that looks at one
    pair at a time. *)
Lemma zip_scores (g : candidate → score) (candidates : list candidate) :
  zip candidates (map g candidates) = map (λ c, (c, g c)) candidates.
Proof.
  induction candidates as [| c candidates IH]; [done |]. simpl.
  by rewrite <- IH.
Qed.

Lemma tagged_again (g : candidate → score)
    (ranked : list (candidate * score)) :
  Forall (λ p, p.2 = g p.1) ranked →
  map (λ c, (c, g c)) (map fst ranked) = ranked.
Proof.
  induction 1 as [| [c s] ranked Hs _ IH]; [done |]. simpl in *.
  by rewrite IH, Hs.
Qed.

(** X19.  Re-ranking twice is re-ranking once, when the cross-encoder
    gives a pair the same score each time it sees it. *)
Theorem rerank_idempotent b use_reranker query_text load
    (model : reranker) (f : string * string → score)
    (candidates : list candidate) :
  strict_weak_order score_lt →
  CrossEncoder b = Some load →
  load "cross-encoder/ms-marco-MiniLM-L-6-v2" = Returned model →
  (∀ pairs, model pairs = Returned (map f pairs)) →
  rerank score_lt b use_reranker query_text
    (rerank score_lt b use_reranker query_text candidates)
  = rerank score_lt b use_reranker query_text candidates.
Proof.
  intros Hlt Hload Hmodel Hpointwise.
  set (g := λ c : candidate, f (query_text, c.1)).
  assert (∀ l, rank score_lt load query_text l
               = Returned (map fst (sorted score_lt snd true
                                      (map (λ c, (c, g c)) l)))) as Hrank.
  { intros l. unfold rank. rewrite Hmodel. cbn [bind].
    rewrite Hpointwise. cbn [bind].
    rewrite map_map. by rewrite (zip_scores g). }
  unfold rerank. rewrite Hload, !Hrank.
  destruct use_reranker; [| done]. cbn [andb].
  destruct candidates as [| c candidates]; [done |].
  set (l := c :: candidates). change (truthy l) with true. cbv iota.
  set (ranked := sorted score_lt snd true (map (λ c, (c, g c)) l)).
  assert (map fst ranked ≠ []) as Hne.
  { intros Hnil. apply (f_equal length) in Hnil.
    rewrite length_map in Hnil. unfold ranked in Hnil.
    rewrite sorted_perm, length_map in Hnil. done. }
  rewrite (truthy_true _ Hne). f_equal.
  rewrite tagged_again.
  - apply sorted_descending_id. by apply sorted_reverse_stable.
  - unfold ranked. rewrite sorted_perm.
    apply Forall_fmap, Forall_forall. by intros.
Qed.
End Plain.

End RetrievalMore.

(** ** The manifest: order, defaults, lookup *)

Module ManifestMore.
Import Py Manifest ManifestFacts ManifestQueries.

Local Open Scope string_scope.
Local Open Scope list_scope.

(** An entry built from an item of the file: the four required fields as
    the file has them, [""] for a missing citation, [[]] for a missing
    scope. *)
Definition entry_of (item : json) (entry : SourceEntry) : Prop :=
  ∃ members,
    item = JObject members ∧
    dict_lookup "id" members = Some (id entry) ∧
    dict_lookup "title" members = Some (title entry) ∧
    dict_lookup "type" members = Some (type entry) ∧
    dict_lookup "path" members = Some (path entry) ∧
    citation entry = default (JString "") (dict_lookup "citation" members) ∧
    scope entry = default (JArray []) (dict_lookup "scope" members).

Lemma make_entry_entry_of item entry :
  make_entry item = Returned entry → entry_of item entry.
Proof.
  unfold make_entry. destruct item as [| | | | | members]; try done.
  simpl.
  destruct (dict_lookup "id" members) eqn:Hid; [| done]. simpl.
  destruct (dict_lookup "title" members) eqn:Htitle; [| done]. simpl.
  destruct (dict_lookup "type" members) eqn:Htype; [| done]. simpl.
  destruct (dict_lookup "path" members) eqn:Hpath; [| done]. simpl.
  intros [= <-]. by exists members.
Qed.

Lemma make_entries_in_order items entries result :
  make_entries items entries = Returned result →
  ∃ built, result = entries ++ built ∧ Forall2 entry_of items built.
Proof.
  revert entries. induction items as [| item items IH]; intros entries.
  - simpl. intros [= <-]. exists []. by rewrite app_nil_r.
  - simpl. destruct (make_entry item) as [entry |] eqn:Hentry; [| done].
    simpl. intros Hrest. apply IH in Hrest as (built & -> & Hbuilt).
    exists (entry :: built). rewrite <- app_assoc. split; [done |].
    constructor; [by apply make_entry_entry_of | done].
Qed.

(** What [make_entry] reads first is [item["id"]]. *)
Lemma make_entry_id item entry :
  make_entry item = Returned entry →
  subscript item "id" = Returned (id entry).
Proof.
  unfold make_entry. destruct (subscript item "id") as [id_ |]; [| done].
  simpl.
  destruct (subscript item "title") as [title_ |]; [| done]. simpl.
  destruct (subscript item "type") as [type_ |]; [| done]. simpl.
  destruct (subscript item "path") as [path_ |]; [| done]. simpl.
  destruct (get item "citation" _) as [citation_ |]; [| done]. simpl.
  destruct (get item "scope" _) as [scope_ |]; [| done]. simpl.
  by intros [= <-].
Qed.

(** The loop builds the entries one by one, in the order of the items. *)
Lemma make_entries_made items entries result :
  make_entries items entries = Returned result →
  ∃ built,
    result = entries ++ built ∧
    Forall2 (λ item entry, make_entry item = Returned entry) items built.
Proof.
  revert entries. induction items as [| item items IH]; intros entries.
  - simpl. intros [= <-]. exists []. by rewrite app_nil_r.
  - simpl. destruct (make_entry item) as [entry |] eqn:Hentry; [| done].
    simpl. intros Hrest. apply IH in Hrest as (built & -> & Hbuilt).
    exists (entry :: built). rewrite <- app_assoc. split; [done |].
    by constructor.
Qed.

Lemma load_returned d path manifest :
  load d path = Returned manifest →
  ∃ data listed items,
    file_at d (manifest_path d path) = Json data ∧
    get data "sources" (JArray []) = Returned listed ∧
    iterate listed = Returned items ∧
    Forall2 (λ item entry, make_entry item = Returned entry)
            items (sources manifest).
Proof.
  unfold load.
  destruct (file_at d (manifest_path d path)) as [| | | e | data]; try done.
  simpl. destruct (get data "sources" (JArray [])) as [listed |] eqn:Hget;
    [| done]. simpl.
  destruct (iterate listed) as [items |] eqn:Hiter; [| done]. simpl.
  destruct (make_entries items []) as [entries |] eqn:Hentries; [| done].
  simpl. intros [= <-]. simpl.
  apply make_entries_made in Hentries as (built & -> & Hbuilt).
  by exists data, listed, items.
Qed.

(** X20.  A manifest that loads has one entry for each source listed in
    the file, in the order of the file; each entry carries the [id],
    [title], [type] and [path] of its source, [""] for a missing
    citation and [[]] for a missing scope. *)
Theorem load_keeps_order d path manifest :
  load d path = Returned manifest →
  ∃ data listed items,
    file_at d (manifest_path d path) = Json data ∧
    get data "sources" (JArray []) = Returned listed ∧
    iterate listed = Returned items ∧
    Forall2 entry_of items (sources manifest).
Proof.
  unfold load.
  destruct (file_at d (manifest_path d path)) as [| | | e | data]; try done.
  simpl. destruct (get data "sources" (JArray [])) as [listed |] eqn:Hget;
    [| done]. simpl.
  destruct (iterate listed) as [items |] eqn:Hiter; [| done]. simpl.
  destruct (make_entries items []) as [entries |] eqn:Hentries; [| done].
  simpl. intros [= <-]. simpl.
  apply make_entries_in_order in Hentries as (built & -> & Hbuilt).
  by exists data, listed, items.
Qed.

Lemma find_first (m : SourcesManifest) source_id :
  match find m source_id with
  | Some entry =>
      ∃ before after,
        sources m = before ++ entry :: after ∧
        id entry = JString source_id ∧
        Forall (λ s, id s ≠ JString source_id) before
  | None => Forall (λ s, id s ≠ JString source_id) (sources m)
  end.
Proof.
  unfold find. induction (sources m) as [| s l IH]; [by constructor |].
  simpl. destruct (equals_str (id s) source_id) eqn:Heq.
  - exists [], l. split; [done |]. split; [| done].
    unfold equals_str in Heq. destruct (id s); try done.
    by apply String.eqb_eq in Heq as ->.
  - assert (id s ≠ JString source_id) as Hne.
    { intros Hid. rewrite Hid in Heq. simpl in Heq.
      by rewrite String.eqb_refl in Heq. }
    destruct (List.find _ l) as [entry |].
    + destruct IH as (before & after & -> & Hid & Hbefore).
      exists (s :: before), after. split; [done |]. split; [done |].
      by constructor.
    + by constructor.
Qed.

(** X21.  Load, then look up.  The sources that the file lists are the
    items that [load] iterates over.  [find] with an [id] returns the
    entry that [load] built from the first listed source whose [id] is
    that string, and [None] when no listed source has it. *)
Theorem load_then_find d path manifest source_id :
  load d path = Returned manifest →
  ∃ data listed items,
    file_at d (manifest_path d path) = Json data ∧
    get data "sources" (JArray []) = Returned listed ∧
    iterate listed = Returned items ∧
    match find manifest source_id with
    | Some entry =>
        ∃ before item after,
          items = before ++ item :: after ∧
          Forall (λ item',
                    subscript item' "id" ≠ Returned (JString source_id))
                 before ∧
          subscript item "id" = Returned (JString source_id) ∧
          make_entry item = Returned entry
    | None =>
        Forall (λ item, subscript item "id" ≠ Returned (JString source_id))
               items
    end.
Proof.
  intros Hload.
  apply load_returned in Hload
    as (data & listed & items & Hfile & Hlisted & Hiter & Hall).
  exists data, listed, items. do 3 (split; [done |]).
  assert (∀ l entries,
            Forall2 (λ item entry, make_entry item = Returned entry)
                    l entries →
            Forall (λ s, id s ≠ JString source_id) entries →
            Forall (λ item,
                      subscript item "id" ≠ Returned (JString source_id)) l)
    as Hids.
  { intros l entries Hmade. induction Hmade as [| item s l entries Hs _ IH];
      [done |].
    intros Hne. apply Forall_cons in Hne as [Hne Hrest].
    constructor; [| by apply IH].
    apply make_entry_id in Hs. rewrite Hs. by intros [= ?]. }
  pose proof (find_first manifest source_id) as Hfind.
  destruct (find manifest source_id) as [entry |].
  - destruct Hfind as (before & after & Hsources & Hid & Hbefore).
    rewrite Hsources in Hall.
    apply Forall2_app_inv_r in Hall as (items1 & items2 & H1 & H2 & ->).
    apply Forall2_cons_inv_r in H2 as (item & items3 & Hitem & H3 & ->).
    exists items1, item, items3. split; [done |].
    split; [by eapply Hids |]. split; [| done].
    apply make_entry_id in Hitem. by rewrite Hitem, Hid.
  - by eapply Hids.
Qed.

End ManifestMore.

(** ** Text extraction: which failures get out *)

Module ExtractionMore.
Import Py Manifest Extraction ExtractionFacts.

Local Open Scope string_scope.

Section Extract.
Context (lower : string → string).

(** X22.  [read_text_from_source] raises only in these cases: the path of
    the source is not a string, or the file was found and is handled by
    the HTML, PDF or DOCX branch and reading or parsing it raised.  The
    exception is the one that was raised there. *)
Theorem read_text_from_source_raises w root_dir source e :
  read_text_from_source lower w root_dir source = Raised e →
  (∀ rel_path, path source ≠ JString rel_path) ∨
  ∃ rel_path abs_path,
    path source = JString rel_path ∧
    _resolve_source_path w root_dir rel_path = Some abs_path ∧
    path_exists w abs_path = true ∧
    match branch_of lower w abs_path with
    | Html =>
        read_text w abs_path = Raised e ∨
        ∃ html get_text,
          read_text w abs_path = Returned html ∧
          BeautifulSoup w = Some get_text ∧ get_text html = Raised e
    | Pdf =>
        ∃ pages_of, pypdf w = Some pages_of ∧ pages_of abs_path = Raised e
    | Docx =>
        ∃ paragraphs_of,
          docx w = Some paragraphs_of ∧ paragraphs_of abs_path = Raised e
    | Raw => False
    end.
Proof.
  unfold read_text_from_source.
  destruct (path source) as [| | | rel_path | |] eqn:Hpath;
    try (intros _; left; by intros rel_path).
  destruct (_resolve_source_path w root_dir rel_path) as [abs_path |]
    eqn:Hresolve; [| done].
  destruct (String.eqb abs_path ""); [done |].
  intros Hraise. right. exists rel_path, abs_path.
  split; [done |]. split; [done |]. split.
  { unfold _resolve_source_path in Hresolve.
    by apply find_some in Hresolve as [_ ?]. }
  pose proof (_read_text_by_branch lower w abs_path) as Hbranch.
  destruct (branch_of lower w abs_path).
  - destruct Hbranch as (get_text & Hsoup & Hread).
    rewrite Hread in Hraise.
    destruct (read_text w abs_path) as [html |] eqn:Hhtml; simpl in Hraise.
    + right. by exists html, get_text.
    + left. congruence.
  - destruct Hbranch as (pages_of & Hpdf & Hread).
    rewrite Hread in Hraise. exists pages_of. split; [done |].
    destruct (pages_of abs_path); simpl in Hraise; congruence.
  - destruct Hbranch as (paragraphs_of & Hdocx & Hread).
    rewrite Hread in Hraise. exists paragraphs_of. split; [done |].
    destruct (paragraphs_of abs_path); simpl in Hraise; congruence.
  - rewrite Hbranch in Hraise. unfold raw_read in Hraise.
    by destruct (read_text w abs_path).
Qed.
End Extract.

End ExtractionMore.

(** ** Document structure and the numbering heuristic *)

Module StructureFacts.
Import Py PyFacts Str Docx Parser Checks.

Local Open Scope string_scope.
Local Open Scope Z_scope.
Local Open Scope list_scope.

Section Numbered.
Context (strip : string → string) (re_match : string → string → bool).

(** The paragraphs that count: not blank, and starting with a number. *)
Definition numbered (doc : list paragraph) : list paragraph :=
  filter (λ p, strip (Docx.text p) ≠ "" ∧
               _paragraph_starts_with_number re_match (strip (Docx.text p))
                 = true)
         doc.

Lemma numbered_loop_count doc min_count count :
  numbered_loop strip re_match doc min_count count = true ↔
  1 ≤ len (numbered doc) ∧ min_count ≤ count + len (numbered doc).
Proof.
  revert count. induction doc as [| p doc IH]; intros count.
  - simpl. unfold len. simpl. split; [done | lia].
  - unfold numbered. rewrite filter_cons. fold (numbered doc).
    cbn [numbered_loop].
    destruct (String.eqb_spec (strip (Docx.text p)) "") as [Hblank | Hfull].
    { case_decide as Hd; [by destruct Hd |]. apply IH. }
    destruct (_paragraph_starts_with_number re_match (strip (Docx.text p)))
      eqn:Hnum.
    + case_decide as Hd; [| exfalso; apply Hd; by split].
      pose proof (len_nonneg (numbered doc)).
      assert (len (p :: numbered doc) = 1 + len (numbered doc)) as ->
        by (unfold len; simpl; lia).
      destruct (Z.geb_spec (count + 1) min_count) as [Hge | Hlt].
      * split; [lia | done].
      * rewrite IH. lia.
    + case_decide as Hd; [by destruct Hd |]. apply IH.
Qed.

(** X23.  [_has_sequential_numbered_paragraphs] only counts: it answers
    [True] exactly when at least [max(1, min_count)] non-blank paragraphs
    start with a number.  Neither the numbers nor the order of the
    paragraphs are looked at, so shuffling the paragraphs never changes
    the answer. *)
Theorem numbered_paragraphs_counted doc min_count :
  (_has_sequential_numbered_paragraphs strip re_match doc min_count = true ↔
   Z.max 1 min_count ≤ len (numbered doc)) ∧
  ∀ doc', doc ≡ₚ doc' →
    _has_sequential_numbered_paragraphs strip re_match doc' min_count
    = _has_sequential_numbered_paragraphs strip re_match doc min_count.
Proof.
  assert (∀ d, _has_sequential_numbered_paragraphs strip re_match d min_count
               = true ↔ Z.max 1 min_count ≤ len (numbered d)) as Hcount.
  { intros d. unfold _has_sequential_numbered_paragraphs.
    rewrite numbered_loop_count. lia. }
  split; [apply Hcount |]. intros doc' Hperm.
  assert (len (numbered doc') = len (numbered doc)) as Hlen.
  { unfold len, numbered. by rewrite Hperm. }
  apply eq_true_iff_eq. rewrite !Hcount, Hlen. done.
Qed.
End Numbered.

Section Parse.
Context (lower strip : string → string) (split : string → list string).
Context (isdigit : string → bool) (int : string → outcome exn Z).

(** The paragraphs that give a block. *)
Definition non_blank (doc : list paragraph) : list paragraph :=
  filter (λ p, strip (Docx.text p) ≠ "") doc.

Definition block_of (p : paragraph) (b : block) : Prop :=
  b !! "text" = Some (VStr (strip (Docx.text p))) ∧
  (b !! "type" = Some (VStr "heading") ∨
   b !! "type" = Some (VStr "paragraph")).

Lemma parse_paragraph_block p parsed :
  parse_paragraph lower strip split isdigit int p = Returned parsed →
  match parsed with
  | Some b => strip (Docx.text p) ≠ "" ∧ block_of p b
  | None => strip (Docx.text p) = ""
  end.
Proof.
  unfold parse_paragraph.
  destruct (String.eqb_spec (strip (Docx.text p)) "") as [Hblank | Hfull].
  { by intros [= <-]. }
  destruct (detect_heading_level _ _ _ _ _) as [[level |] |]; simpl;
    [| | done]; intros [= <-]; (split; [done |]); split.
  - by simplify_map_eq.
  - left. by simplify_map_eq.
  - by simplify_map_eq.
  - right. by simplify_map_eq.
Qed.

Lemma parse_loop_blocks paragraphs blocks result :
  parse_loop lower strip split isdigit int paragraphs blocks
    = Returned result →
  ∃ built,
    result = blocks ++ built ∧ Forall2 block_of (non_blank paragraphs) built.
Proof.
  revert blocks. induction paragraphs as [| p rest IH]; intros blocks.
  - simpl. intros [= <-]. exists []. by rewrite app_nil_r.
  - simpl. destruct (parse_paragraph _ _ _ _ _ p) as [parsed |] eqn:Hp;
      [| done]. simpl.
    apply parse_paragraph_block in Hp. unfold non_blank.
    rewrite filter_cons. fold (non_blank rest).
    destruct parsed as [b |].
    + destruct Hp as [Hfull Hb]. rewrite decide_True by done.
      intros Hrest. apply IH in Hrest as (built & -> & Hbuilt).
      exists (b :: built). rewrite <- app_assoc. split; [done |].
      by constructor.
    + rewrite decide_False by (by intros ?).
      apply IH.
Qed.

Lemma count_type_blocks (blocks : list block) :
  Forall (λ b, b !! "type" = Some (VStr "heading") ∨
               b !! "type" = Some (VStr "paragraph")) blocks →
  ∃ num_headings num_paragraphs,
    count_type "heading" blocks = Returned num_headings ∧
    count_type "paragraph" blocks = Returned num_paragraphs ∧
    0 ≤ num_headings ∧ 0 ≤ num_paragraphs ∧
    num_headings + num_paragraphs = len blocks.
Proof.
  induction 1 as [| b blocks Hb _ (h & p & Hh & Hp & ? & ? & Hsum)].
  - exists 0, 0. by repeat split.
  - assert (len (b :: blocks) = 1 + len blocks) as ->
      by (unfold len; simpl; lia).
    simpl. rewrite Hh, Hp. destruct Hb as [-> | ->]; simpl.
    + exists (1 + h), p. repeat split; try done; lia.
    + exists h, (1 + p). repeat split; try done; lia.
Qed.

(** X24.  When [parse_document_structure] returns, it has made one block
    for each paragraph whose text is not blank, in order, holding the
    stripped text; [summarize_structure] then counts headings and
    paragraphs that add up to the number of blocks and previews the first
    ten. *)
Theorem parse_then_summarize doc blocks :
  parse_document_structure lower strip split isdigit int doc
    = Returned blocks →
  Forall2 block_of (non_blank doc) blocks ∧
  ∃ num_headings num_paragraphs,
    summarize_structure blocks
      = Returned {[ "num_headings" := VInt num_headings;
                    "num_paragraphs" := VInt num_paragraphs;
                    "preview" := VList (take 10 blocks) ]} ∧
    num_headings + num_paragraphs = len (non_blank doc).
Proof.
  intros Hparse. unfold parse_document_structure in Hparse.
  apply parse_loop_blocks in Hparse as (built & -> & Hbuilt). simpl.
  split; [done |].
  destruct (count_type_blocks built) as (h & p & Hh & Hp & _ & _ & Hsum).
  { eapply Forall2_Forall_r; [exact Hbuilt |].
    apply Forall_forall. intros q _ b [_ Htype]. done. }
  exists h, p. unfold summarize_structure. rewrite Hh, Hp. simpl.
  split.
  - do 4 f_equal. unfold slice_to, slice, clamp_index. simpl.
    pose proof (len_nonneg built).
    rewrite (Z.min_l 0) by lia. rewrite drop_0, Z.sub_0_r.
    destruct (Z.le_gt_cases 10 (len built)).
    + by rewrite Z.min_l by lia.
    + rewrite Z.min_r by lia. rewrite !take_ge; [done | |];
        unfold len in *; lia.
  - rewrite Hsum. unfold len. by rewrite (Forall2_length _ _ _ Hbuilt).
Qed.
End Parse.

End StructureFacts.

(** * The further properties on concrete inputs *)

Module MoreExamples.
Import Py PyFacts Str AsciiText Docx.
Import Chunker ChunkerFacts ChunkerExamples ChunkerWindows.
Import Checklists Inference ChecklistFacts ChecklistMore.
Import Gemini Classifier ClassifierFacts Pipeline.
Import Retrieval RetrievalFacts RetrievalExamples BasicQuery RetrievalMore.
Import Manifest ManifestFacts ManifestExamples ManifestQueries ManifestMore.
Import Extraction ExtractionFacts ExtractionExamples ExtractionMore.
Import Parser Checks StructureFacts.

Local Open Scope string_scope.
Local Open Scope Z_scope.
Local Open Scope list_scope.

Example ascii_strip_spaces : ascii_strip "  Heading 1  " = "Heading 1".
Proof. reflexivity. Qed.

Example ascii_split_words :
  ascii_split " Heading   12 " = [ "Heading"; "12" ].
Proof. reflexivity. Qed.

Example ascii_int_12 : ascii_int "12" = Returned 12.
Proof. reflexivity. Qed.

(** *** The chunker *)

Lemma chunk_text_pieces_witness :
  chunk_text 11 (text_of "abcdefghij") (-3) (-5)
    = Some [ text_of "abcdefg"; text_of "cdefghi" ] ∧
  Forall (λ chunk,
            chunk ≠ [] ∧
            ∃ before after, text_of "abcdefghij" = before ++ chunk ++ after)
         [ text_of "abcdefg"; text_of "cdefghi" ].
Proof.
  split; [reflexivity |].
  apply (chunk_text_pieces (text_of "abcdefghij") (-3) (-5) 11).
  reflexivity.
Defined.

Lemma chunk_text_single_witness :
  text_of "ab" ≠ [] ∧ len (text_of "ab") ≤ 2 ∧
  chunk_text 1 (text_of "ab") 2 5 = Some [ text_of "ab" ].
Proof.
  split; [done |]. split; [by vm_compute |].
  apply (chunk_text_single (text_of "ab") 2 5 0); [done | by vm_compute].
Defined.

Lemma chunk_text_is_windows_witness :
  0 ≤ 1 < 4 ∧
  ∃ chunks,
    chunk_text 11 (text_of "abcdefghij") 4 1 = Some chunks ∧
    ∀ (k : nat) chunk,
      chunks !! k = Some chunk →
      chunk = slice (text_of "abcdefghij") (Z.of_nat k * (4 - 1))
                    (Z.of_nat k * (4 - 1) + 4).
Proof.
  split; [lia |].
  apply (chunk_text_is_windows (text_of "abcdefghij") 4 1 11);
    [lia | simpl; lia].
Defined.

Lemma chunk_text_sizes_witness :
  0 ≤ 1 < 4 ∧
  ∃ chunks,
    chunk_text 12 (text_of "abcdefghijk") 4 1 = Some chunks ∧
    Forall (λ chunk, 1 ≤ len chunk ≤ 4) chunks ∧
    ∀ (k : nat) chunk,
      chunks !! k = Some chunk → (S k < length chunks)%nat →
      len chunk = 4.
Proof.
  split; [lia |].
  apply (chunk_text_sizes (text_of "abcdefghijk") 4 1 12);
    [lia | simpl; lia].
Defined.

Lemma chunk_text_overlaps_witness :
  0 ≤ 2 < 5 ∧
  ∃ chunks,
    chunk_text 12 (text_of "abcdefghijk") 5 2 = Some chunks ∧
    ∀ (k : nat) chunk next,
      chunks !! k = Some chunk → chunks !! S k = Some next →
      drop (Z.to_nat (5 - 2)) chunk = take (Z.to_nat 2) next ∧
      len (take (Z.to_nat 2) next) = 2.
Proof.
  split; [lia |].
  apply (chunk_text_overlaps (text_of "abcdefghijk") 5 2 12);
    [lia | simpl; lia].
Defined.

(** *** The checklist and the classifier *)

Lemma compute_missing_docs_monotone_witness :
  (∀ label, label ∈ [ "Articles of Association" ] →
            label ∈ [ "Shareholder Resolution"; "Articles of Association" ]) ∧
  (∀ req, req ∈ (compute_missing_docs "AoA Amendment"
                   [ "Shareholder Resolution"; "Articles of Association" ]).2 →
          req ∈ (compute_missing_docs "AoA Amendment"
                   [ "Articles of Association" ]).2).
Proof.
  assert (∀ label, label ∈ [ "Articles of Association" ] →
            label ∈ [ "Shareholder Resolution"; "Articles of Association" ])
    as Hsub by set_solver.
  split; [exact Hsub |].
  apply (compute_missing_docs_monotone "AoA Amendment"
           [ "Articles of Association" ]
           [ "Shareholder Resolution"; "Articles of Association" ] Hsub).
Defined.

(** A model that always names the employment contract, in capitals. *)
Definition shouting_model : GeminiClient :=
  {| model_name := "gemini-1.5-flash"; enabled := true;
     model := Some (λ prompt, Returned (Text "  EMPLOYMENT CONTRACT.  ")) |}.

Definition no_model : GeminiClient :=
  {| model_name := "gemini-1.5-flash"; enabled := false; model := None |}.

Definition show_nothing (labels : list string) : string := "[...]".

Example gemini_classify_shouting :
  Gemini.classify ascii_lower ascii_strip show_nothing shouting_model
    "This agreement ..." KNOWN_LABELS
  = Some "Employment Contract".
Proof. reflexivity. Qed.

Lemma gemini_classify_first_label_witness :
  Gemini.classify ascii_lower ascii_strip show_nothing shouting_model
    "This agreement ..." KNOWN_LABELS
  = Some "Employment Contract" ∧
  "Employment Contract" ∈ KNOWN_LABELS.
Proof.
  split; [reflexivity |].
  apply (gemini_classify_first_label ascii_lower ascii_strip show_nothing
           shouting_model "This agreement ..." KNOWN_LABELS
           "Employment Contract").
  reflexivity.
Defined.

(** A regular-expression search that only knows plain words. *)
Definition plain_search (pattern text : string) : bool :=
  contains text pattern.

Definition minutes : Document :=
  [ {| Docx.text := "Minutes of the meeting of the board";
       style_name := Some "Heading 1" |};
    {| Docx.text := "   "; style_name := None |};
    {| Docx.text := "1. It was resolved that ..."; style_name := None |};
    {| Docx.text := "2) The chair closed the meeting.";
       style_name := Some "Normal" |} ].

Example classify_board_resolution_file :
  Classifier.classify ascii_lower ascii_strip show_nothing plain_search
    no_model "Board_Resolution_Incorporation.docx" minutes
  = "Shareholder Resolution".
Proof. reflexivity. Qed.

Lemma board_resolution_needs_gemini_witness :
  (enabled no_model = false ∨ model no_model = None) ∧
  "Board Resolution"
    ∉ map (λ file : string * Document,
             Classifier.classify ascii_lower ascii_strip show_nothing
               plain_search no_model file.1 file.2)
          [ ("Board_Resolution_Incorporation.docx", minutes) ].
Proof.
  split; [by left |].
  apply (board_resolution_needs_gemini ascii_lower ascii_strip show_nothing
           plain_search no_model
           [ ("Board_Resolution_Incorporation.docx", minutes) ]).
  by left.
Defined.

(** *** Retrieval *)

Lemma query_improved_passages_witness :
  query_improved ascii_lower Z.ltb scoring "working hours" 2 30
    "adgm_sources" (Some [ "Data Protection" ]) None true
  = Returned [ passage employment_passage; passage companies_passage ] ∧
  (0 ≤ 2 →
   len [ passage employment_passage; passage companies_passage ] ≤ 2).
Proof.
  split; [by vm_compute |].
  apply (query_improved_passages ascii_lower Z.ltb scoring "working hours"
           2 30 "adgm_sources" (Some [ "Data Protection" ]) None true).
  by vm_compute.
Defined.

Lemma query_improved_plain_witness :
  (false = false ∨ CrossEncoder scoring = None) ∧
  query_improved ascii_lower Z.ltb scoring "working hours" 2 30
    "adgm_sources" None None false
  = bind (query scoring (Z.max 30 2) "working hours" "adgm_sources")
         (λ passages, Returned (slice_to passages 2)).
Proof.
  split; [by left |].
  apply (query_improved_plain ascii_lower Z.ltb scoring "working hours" 2 30
           "adgm_sources" false).
  by left.
Defined.

Definition length_score (pair : string * string) : Z :=
  Z.of_nat (String.length pair.2).

Lemma rerank_idempotent_witness :
  strict_weak_order Z.ltb ∧
  CrossEncoder scoring = Some (λ name, Returned length_model) ∧
  (∀ pairs, length_model pairs = Returned (map length_score pairs)) ∧
  rerank Z.ltb scoring true "q"
    (rerank Z.ltb scoring true "q"
       [ ("bb", ∅); ("a", ∅); ("cc", ∅); ("ddd", ∅) ])
  = rerank Z.ltb scoring true "q"
      [ ("bb", ∅); ("a", ∅); ("cc", ∅); ("ddd", ∅) ].
Proof.
  assert (strict_weak_order Z.ltb) as Hlt by (split; intros; lia).
  split; [exact Hlt |]. split; [reflexivity |]. split; [done |].
  apply (rerank_idempotent Z.ltb scoring true "q"
           (λ name, Returned length_model) length_model length_score);
    [exact Hlt | reflexivity | reflexivity | done].
Defined.

(** *** The manifest and text extraction *)

Definition employment_source : SourceEntry :=
  {| id := JString "employment_regulations_2024";
     title := JString "Employment Regulations 2024";
     type := JString "regulation";
     path := JString "employment_regulations_2024.pdf";
     citation := JString "";
     scope := JArray [ JString "Employment Contracts" ] |}.

Example find_employment :
  find {| sources := [ employment_source ] |} "employment_regulations_2024"
  = Some employment_source ∧
  find {| sources := [ employment_source ] |} "companies_regulations_2020"
  = None ∧
  by_type {| sources := [ employment_source ] |} "regulation"
  = [ employment_source ].
Proof. repeat split; reflexivity. Qed.

Lemma load_keeps_order_witness :
  load manifests None = Returned {| sources := [ employment_source ] |} ∧
  ∃ data listed items,
    file_at manifests (manifest_path manifests None) = Json data ∧
    get data "sources" (JArray []) = Returned listed ∧
    iterate listed = Returned items ∧
    Forall2 entry_of items [ employment_source ].
Proof.
  split; [reflexivity |].
  apply (load_keeps_order manifests None
           {| sources := [ employment_source ] |}).
  reflexivity.
Defined.

Lemma load_then_find_witness :
  load manifests None = Returned {| sources := [ employment_source ] |} ∧
  ∃ data listed items,
    file_at manifests (manifest_path manifests None) = Json data ∧
    get data "sources" (JArray []) = Returned listed ∧
    iterate listed = Returned items ∧
    match find {| sources := [ employment_source ] |}
            "employment_regulations_2024" with
    | Some entry =>
        ∃ before item after,
          items = before ++ item :: after ∧
          Forall (λ item',
                    subscript item' "id"
                      ≠ Returned (JString "employment_regulations_2024"))
                 before ∧
          subscript item "id"
            = Returned (JString "employment_regulations_2024") ∧
          make_entry item = Returned entry
    | None =>
        Forall (λ item,
                  subscript item "id"
                    ≠ Returned (JString "employment_regulations_2024"))
               items
    end.
Proof.
  split; [reflexivity |].
  apply (load_then_find manifests None
           {| sources := [ employment_source ] |}
           "employment_regulations_2024").
  reflexivity.
Defined.

Lemma read_text_from_source_raises_witness :
  read_text_from_source ascii_lower (corpus (Some failing_pdf_parser))
    "/corpus" rules_source
  = Raised (Exn "PdfReadError" "EOF marker not found") ∧
  ((∀ rel_path, path rules_source ≠ JString rel_path) ∨
   ∃ rel_path abs_path,
     path rules_source = JString rel_path ∧
     _resolve_source_path (corpus (Some failing_pdf_parser)) "/corpus"
       rel_path = Some abs_path ∧
     path_exists (corpus (Some failing_pdf_parser)) abs_path = true ∧
     match branch_of ascii_lower (corpus (Some failing_pdf_parser)) abs_path
     with
     | Html =>
         read_text (corpus (Some failing_pdf_parser)) abs_path
           = Raised (Exn "PdfReadError" "EOF marker not found") ∨
         ∃ html get_text,
           read_text (corpus (Some failing_pdf_parser)) abs_path
             = Returned html ∧
           BeautifulSoup (corpus (Some failing_pdf_parser)) = Some get_text ∧
           get_text html = Raised (Exn "PdfReadError" "EOF marker not found")
     | Pdf =>
         ∃ pages_of,
           pypdf (corpus (Some failing_pdf_parser)) = Some pages_of ∧
           pages_of abs_path
             = Raised (Exn "PdfReadError" "EOF marker not found")
     | Docx =>
         ∃ paragraphs_of,
           docx (corpus (Some failing_pdf_parser)) = Some paragraphs_of ∧
           paragraphs_of abs_path
             = Raised (Exn "PdfReadError" "EOF marker not found")
     | Raw => False
     end).
Proof.
  split; [reflexivity |].
  apply (read_text_from_source_raises ascii_lower
           (corpus (Some failing_pdf_parser)) "/corpus" rules_source
           (Exn "PdfReadError" "EOF marker not found")).
  reflexivity.
Defined.

(** *** Document structure *)

Example numbered_minutes :
  _has_sequential_numbered_paragraphs ascii_strip
    (λ pattern text, match chars text with
                     | c :: _ => is_digit c
                     | [] => false
                     end)
    minutes 2 = true.
Proof. reflexivity. Qed.

Definition minutes_blocks : list block :=
  [ {[ "type" := VStr "heading"; "level" := VInt 1;
       "text" := VStr "Minutes of the meeting of the board" ]};
    {[ "type" := VStr "paragraph";
       "text" := VStr "1. It was resolved that ..." ]};
    {[ "type" := VStr "paragraph";
       "text" := VStr "2) The chair closed the meeting." ]} ].

Lemma parse_then_summarize_witness :
  parse_document_structure ascii_lower ascii_strip ascii_split
    ascii_isdigit ascii_int minutes = Returned minutes_blocks ∧
  Forall2 (block_of ascii_strip) (non_blank ascii_strip minutes)
    minutes_blocks.
Proof.
  split; [by vm_compute |].
  apply (parse_then_summarize ascii_lower ascii_strip ascii_split
           ascii_isdigit ascii_int minutes minutes_blocks).
  by vm_compute.
Defined.

End MoreExamples.
